(** * Kazar: treasury-gated top-up and minter management

    A shallow embedding of the Solidity contract [Kazar] that the scripts of
    this repository compile and deploy (the [source] template string of
    gas-fund-and-mint.js), restricted to the entry points that touch the
    treasury and the minter mapping: the constructor, [addMinter],
    [removeMinter], [sweep] and [distributeIfBelowFromTreasury].

    Modelling choices.
    - [uint256] values are integers in [Z]; the additions of an [unchecked]
      block are reduced modulo [2^256] explicitly ([wrap256]).
    - [address] is [Z]; [address(0)] is [0].
    - A [mapping] is a [gmap] read with the type's default value.
    - The chain's native balances are a [gmap address Z] (absent = 0).  The
      chain itself keeps the total supply below [2^256], so crediting an
      account never wraps and is plain addition.
    - [to.call{value: v}] with empty calldata either moves [v] from the
      contract to [to] and yields [ok = true], or moves nothing and yields
      [ok = false].  It fails
      when the contract holds less than [v] or when [to] refuses plain value
      transfers ([refusing]); code run by an accepting recipient is taken to
      have no further effect on the balances.  A call of the contract to
      itself lands in its own empty [receive()] and is accepted.
    - A revert discards every effect of the call; [transact] makes that
      explicit.  Gas is not modelled. *)

From Stdlib Require Import ZArith List Lia.
From stdpp Require Import base option list gmap strings pretty.

Open Scope Z_scope.

Module Kazar.

Abbreviation address := Z (only parsing).

(** ** Machine integers *)

Definition UINT256_MOD : Z := 2 ^ 256.

Definition wrap256 (x : Z) : Z := x mod UINT256_MOD.

Definition is_uint256 (x : Z) : Prop := 0 <= x < UINT256_MOD.

(** ** Errors, logs, results *)

(** The custom errors declared next to the contract, followed by the two
    reverts of the inherited modifiers. *)
Inductive error : Type :=
| NotOwner
| NonexistentToken
| NotMinter
| LengthMismatch
| SweepFailed
| InsufficientTreasury
| Unauthorized
| ReentrantCall.

(** What a successful call leaves in the transaction trace: the two minter
    events, and every value transfer that went through. *)
Inductive log : Type :=
| MinterAdded (account : address)
| MinterRemoved (account : address)
| Sent (to : address) (value : Z).

Inductive result (A : Type) : Type :=
| Ok (a : A)
| Revert (e : error).

Arguments Ok {A} a.
Arguments Revert {A} e.

(** ** State *)

Record state : Type := mkState {
  this : address;                (* address(this) *)
  balances : gmap Z Z;           (* native balance of every account *)
  refusing : gset Z;             (* accounts that reject a plain transfer *)
  owner : address;               (* Ownable._owner *)
  minter : gmap Z bool;          (* mapping(address => bool) minter *)
  entered : bool                 (* ReentrancyGuard._status == ENTERED *)
}.

Definition balance_of (s : state) (a : address) : Z :=
  default 0 (balances s !! a).

Definition is_minter (s : state) (a : address) : bool :=
  default false (minter s !! a).

Definition set_balances (b : gmap Z Z) (s : state) : state :=
  mkState (this s) b (refusing s) (owner s) (minter s) (entered s).

Definition set_minter (m : gmap Z bool) (s : state) : state :=
  mkState (this s) (balances s) (refusing s) (owner s) m (entered s).

Definition set_entered (e : bool) (s : state) : state :=
  mkState (this s) (balances s) (refusing s) (owner s) (minter s) e.

(** ** The ledger primitive: [to.call{value: v}] with empty calldata *)

Definition move (from to : address) (v : Z) (b : gmap Z Z) : gmap Z Z :=
  let b1 := <[from := default 0 (b !! from) - v]> b in
  <[to := default 0 (b1 !! to) + v]> b1.

Definition call_value (s : state) (to : address) (v : Z) : option state :=
  if balance_of s (this s) <? v then None
  else if to =? this s then Some s
  else if bool_decide (to ∈ refusing s) then None
  else Some (set_balances (move (this s) to v (balances s)) s).

(** ** Modifiers *)

(** Modelled from the spec: the [onlyOwner] modifier comes from the imported
    OpenZeppelin [Ownable], which is not part of the sources.  The spec has
    one controller identity and an [Unauthorized] failure for every other
    caller, checked before anything else. *)
Definition onlyOwner {A} (caller : address) (s : state)
    (body : result A) : result A :=
  if bool_decide (caller = owner s) then body else Revert Unauthorized.

(** Modelled from the spec: the [nonReentrant] modifier comes from the
    imported OpenZeppelin [ReentrancyGuard]: a nested invocation of a guarded
    operation is refused; the guard is held for the duration of the body. *)
Definition nonReentrant {A} (s : state)
    (body : state -> result (state * A)) : result (state * A) :=
  if entered s then Revert ReentrantCall
  else match body (set_entered true s) with
       | Ok (s', a) => Ok (set_entered false s', a)
       | Revert e => Revert e
       end.

(** ** Entry points *)

(** [constructor() ERC721("KAZAR", "KZR") { minter[msg.sender] = true; }]
    deployed by [deployer] at address [at_]; the inherited [Ownable]
    constructor makes the deployer the owner. *)
Definition constructor (deployer at_ : address)
    (b : gmap Z Z) (r : gset Z) : state :=
  mkState at_ b r deployer (<[deployer := true]> ∅) false.

Definition addMinter (caller account : address) (s : state)
    : result (state * list log) :=
  onlyOwner caller s
    (Ok (set_minter (<[account := true]> (minter s)) s,
         [MinterAdded account])).

Definition removeMinter (caller account : address) (s : state)
    : result (state * list log) :=
  onlyOwner caller s
    (if negb (is_minter s account) then Revert NotMinter
     else Ok (set_minter (delete account (minter s)) s,
              [MinterRemoved account])).

Definition sweep (caller to : address) (value : Z) (s : state)
    : result (state * list log) :=
  onlyOwner caller s
    (nonReentrant s (fun s1 =>
       match call_value s1 to value with
       | Some s2 => Ok (s2, [Sent to value])
       | None => Revert SweepFailed
       end)).

(** First loop of [distributeIfBelowFromTreasury]: inside [unchecked],
    [if (recipients[i].balance < threshold) need += amount;]. *)
Fixpoint need_loop (s : state) (recipients : list Z)
    (amount threshold need : Z) : Z :=
  match recipients with
  | [] => need
  | r :: rest =>
      need_loop s rest amount threshold
        (if balance_of s r <? threshold then wrap256 (need + amount)
         else need)
  end.

(** Second loop: skip [address(0)], read the recipient's balance, send when
    it is below the threshold, and drop the [ok] flag of the send. *)
Fixpoint exec_loop (s : state) (recipients : list Z)
    (amount threshold : Z) : state * list log :=
  match recipients with
  | [] => (s, [])
  | to :: rest =>
      if to =? 0 then exec_loop s rest amount threshold
      else if balance_of s to <? threshold then
        match call_value s to amount with
        | Some s' =>
            let '(s'', tr) := exec_loop s' rest amount threshold in
            (s'', Sent to amount :: tr)
        | None => exec_loop s rest amount threshold
        end
      else exec_loop s rest amount threshold
  end.

Definition distributeIfBelowFromTreasury (caller : address)
    (recipients : list Z) (amount threshold : Z) (s : state)
    : result (state * list log) :=
  onlyOwner caller s
    (nonReentrant s (fun s1 =>
       let need := need_loop s1 recipients amount threshold 0 in
       if balance_of s1 (this s1) <? need then Revert InsufficientTreasury
       else Ok (exec_loop s1 recipients amount threshold))).

(** ** Transactions *)

Inductive outcome : Type :=
| Success (tr : list log)
| Failure (e : error).

(** A call as a transaction: a revert leaves the state it started from. *)
Definition transact (s : state) (r : result (state * list log))
    : state * outcome :=
  match r with
  | Ok (s', tr) => (s', Success tr)
  | Revert e => (s, Failure e)
  end.

(** ** Reading a trace *)

(** Recipients of the transfers that went through, in order. *)
Fixpoint paid (tr : list log) : list Z :=
  match tr with
  | [] => []
  | Sent to _ :: rest => to :: paid rest
  | _ :: rest => paid rest
  end.

(** How many payments [a] received. *)
Fixpoint times_paid (a : address) (tr : list log) : Z :=
  match tr with
  | [] => 0
  | Sent to _ :: rest => (if to =? a then 1 else 0) + times_paid a rest
  | _ :: rest => times_paid a rest
  end.

(** How many entries of the batch the first loop counts. *)
Fixpoint under_count (s : state) (recipients : list Z) (threshold : Z) : Z :=
  match recipients with
  | [] => 0
  | r :: rest =>
      (if balance_of s r <? threshold then 1 else 0)
      + under_count s rest threshold
  end.

(** The entries the first loop counts that are not the contract itself:
    the ones whose payment would actually drain the treasury. *)
Fixpoint drain_count (s : state) (recipients : list Z) (threshold : Z) : Z :=
  match recipients with
  | [] => 0
  | r :: rest =>
      (if (balance_of s r <? threshold) && negb (r =? this s) then 1 else 0)
      + drain_count s rest threshold
  end.

(** What one recipient [R] gets out of a batch when every send to it goes
    through: each of its entries is tested against the balance it has by
    then, [bal] at first and [amount] more after each payment. *)
Fixpoint expected_payments (R amount threshold bal : Z) (recipients : list Z)
    : Z :=
  match recipients with
  | [] => 0
  | r :: rest =>
      if (r =? R) && (bal <? threshold)
      then 1 + expected_payments R amount threshold (bal + amount) rest
      else expected_payments R amount threshold bal rest
  end.

End Kazar.

(** ** Concrete scenarios *)

Module Scenario.
Import Kazar.

Definition OWNER : Z := 1000.
Definition TREASURY : Z := 2000.
Definition R1 : Z := 11.
Definition R2 : Z := 12.

(** A freshly deployed contract whose treasury holds [t], on a ledger where
    [held] lists the other non-empty accounts and [r] the refusing ones. *)
Definition deployed (t : Z) (held : list (Z * Z)) (r : list Z) : state :=
  constructor OWNER TREASURY (<[TREASURY := t]> (list_to_map held))
    (list_to_set r).

End Scenario.

(** ** Ledger measures *)

Module Supply.
Import Kazar.

(** The sum of all native balances. *)
Definition total_supply (b : gmap Z Z) : Z :=
  map_fold (fun _ v acc => v + acc) 0 b.

(** No account is overdrawn. *)
Definition solvent (s : state) : Prop := forall a, 0 <= balance_of s a.

End Supply.

(** ** The token-facing entry points of the contract

    [mintUniqueTokenTo], [mintToMany], [tokenURI] and [checkIn] call into the
    inherited ERC721 base and the [Strings] library, neither of which is part
    of the sources.  Those operations are the fields of [ERC721]; a field
    returning [None] stands for a revert raised inside the library. *)

Module KazarToken.
Import Kazar.

Class ERC721 (T : Type) : Type := {
  _exists : T -> Z -> bool;
  _mint : T -> Z -> Z -> option T;
  ownerOf : T -> Z -> option Z;
  toString : Z -> string
}.

(** A revert with one of the contract's custom errors, or one raised by the
    inherited code. *)
Inductive failure : Type :=
| Custom (e : error)
| Inherited.

Definition BASE : string := "https://api.kazar.space/new/".

Definition mintUniqueTokenTo {T} `{ERC721 T} (caller to tokenId : Z)
    (s : state) (t : T) : failure + T :=
  if negb (is_minter s caller) then inl (Custom NotMinter)
  else match _mint t to tokenId with
       | Some t' => inr t'
       | None => inl Inherited
       end.

(** The loop of [mintToMany]: an id that already exists is passed over, a
    fresh one is minted; a revert inside [_mint] aborts the call. *)
Fixpoint mint_loop {T} `{ERC721 T} (t : T) (addresses tokenIds : list Z)
    : failure + T :=
  match addresses, tokenIds with
  | a :: addresses', id :: tokenIds' =>
      if _exists t id then mint_loop t addresses' tokenIds'
      else match _mint t a id with
           | Some t' => mint_loop t' addresses' tokenIds'
           | None => inl Inherited
           end
  | [], _ => inr t
  | _ :: _, [] => inl Inherited    (* index out of bounds *)
  end.

Definition mintToMany {T} `{ERC721 T} (caller : Z)
    (addresses tokenIds : list Z) (s : state) (t : T) : failure + T :=
  if negb (is_minter s caller) then inl (Custom NotMinter)
  else if negb (length addresses =? length tokenIds)%nat
       then inl (Custom LengthMismatch)
  else mint_loop t addresses tokenIds.

Definition tokenURI {T} `{ERC721 T} (t : T) (tokenId : Z)
    : failure + string :=
  if negb (_exists t tokenId) then inl (Custom NonexistentToken)
  else inr (BASE +:+ toString tokenId).

(** [checkIn] only emits [Checked(msg.sender, tokenId)]; the result is that
    event's pair. *)
Definition checkIn {T} `{ERC721 T} (caller tokenId : Z) (t : T)
    : failure + (Z * Z) :=
  match ownerOf t tokenId with
  | None => inl Inherited
  | Some o =>
      if negb (o =? caller) then inl (Custom NotOwner)
      else inr (caller, tokenId)
  end.

(** What the contract relies on from the inherited code: [_mint] accepts a
    fresh id for a recipient other than [address(0)] and refuses an id that
    exists; a minted id exists from then on, with the recipient as its
    owner, and ids that existed keep existing; [toString] tells the numbers
    of [uint256] apart. *)
Class ERC721Laws (T : Type) `{ERC721 T} : Prop := {
  mint_fresh : forall t to id,
    to <> 0 -> _exists t id = false -> is_Some (_mint t to id);
  mint_taken : forall t to id,
    _exists t id = true -> _mint t to id = None;
  mint_exists : forall t to id t',
    _mint t to id = Some t' ->
    _exists t' id = true
    /\ forall id', _exists t id' = true -> _exists t' id' = true;
  mint_owner : forall t to id t',
    _mint t to id = Some t' -> ownerOf t' id = Some to;
  toString_inj : forall a b,
    0 <= a -> 0 <= b -> toString a = toString b -> a = b
}.

End KazarToken.

(** ** The stand-alone script (resilient-use-deployed-tokentailscat.js) *)

Module Script.

(** [withRetry(fn, attempts, baseDelay)].  [fn i] is the outcome of the
    invocation made in iteration [i]: [inr] a value, [inl] a thrown error.
    The result is the value returned or the value thrown ([None] is
    [undefined], the initial [lastErr]) together with the delays handed to
    [setTimeout], in order.  [attempts] is the number of iterations
    [i < attempts] admits; a delay is the integer [baseDelay * 2^i]. *)
Fixpoint retry_loop {A E : Type} (fn : nat -> E + A) (baseDelay : Z)
    (n i : nat) (lastErr : option E) (slept : list Z)
    : (option E + A) * list Z :=
  match n with
  | O => (inl lastErr, slept)
  | S n' =>
      match fn i with
      | inr a => (inr a, slept)
      | inl e =>
          retry_loop fn baseDelay n' (S i) (Some e)
            (slept ++ [baseDelay * 2 ^ Z.of_nat i])
      end
  end.

Definition withRetry {A E : Type} (fn : nat -> E + A) (attempts : nat)
    (baseDelay : Z) : (option E + A) * list Z :=
  retry_loop fn baseDelay attempts 0%nat None [].

Definition DEFAULT_ATTEMPTS : nat := 5.
Definition DEFAULT_BASE_DELAY : Z := 300.

(** [findFreeTokenId(contract, startId, maxTries)]: [ownerOf c i] is the
    outcome of the [i]-th [contract.ownerOf(c)] made for candidate [c].  The
    result is the candidate returned ([None]: the final [throw]) and the
    delays requested on the way.  The loop [for (i = 0n; i < maxTries; i++)]
    makes at most [maxTries] iterations. *)
Fixpoint find_loop {A E : Type} (ownerOf : Z -> nat -> E + A) (startId : Z)
    (n : nat) (i : Z) (slept : list Z) : option Z * list Z :=
  match n with
  | O => (None, slept)
  | S n' =>
      let candidate := startId + i in
      match withRetry (ownerOf candidate) DEFAULT_ATTEMPTS DEFAULT_BASE_DELAY
      with
      | (inr _, d) => find_loop ownerOf startId n' (i + 1) (slept ++ d)
      | (inl _, d) => (Some candidate, slept ++ d)
      end
  end.

Definition findFreeTokenId {A E : Type} (ownerOf : Z -> nat -> E + A)
    (startId maxTries : Z) : option Z * list Z :=
  find_loop ownerOf startId (Z.to_nat maxTries) 0 [].

(** The time asked of the timers, in milliseconds. *)
Definition total_delay (delays : list Z) : Z := foldr Z.add 0 delays.

(** The delays of [k] consecutive failures starting at iteration [i]. *)
Definition backoff (baseDelay : Z) (i k : nat) : list Z :=
  map (fun j => baseDelay * 2 ^ Z.of_nat j) (seq i k).

End Script.

(** ** The REST service (index.js)

    A transaction the service sends is modelled by the transition of the
    contract alone.  The fee the chain charges the signing wallet, and with
    it the refusal of a transaction whose signer cannot pay, are outside the
    model, and so is a failure of an await that follows the sending.  The
    properties of these functions are therefore stated for the runs that
    return, and for balances other than the signer's. *)

Module Api.
Import Kazar.

(** [findFreeTokenId(start, limit)]: [returns id] tells whether
    [contract.ownerOf(id)] came back rather than threw. *)
Fixpoint find_loop (returns : Z -> bool) (start : Z) (n : nat) (i : Z)
    : option Z :=
  match n with
  | O => None
  | S n' =>
      let id := start + i in
      if returns id then find_loop returns start n' (i + 1) else Some id
  end.

Definition findFreeTokenId (returns : Z -> bool) (start limit : Z)
    : option Z :=
  find_loop returns start (Z.to_nat limit) 0.

(** [ensureMinter(address)], sent by the service's wallet [signer]. *)
Definition ensureMinter (signer address : Z) (s : state)
    : result (state * list log) :=
  if negb (is_minter s address) then addMinter signer address s
  else Ok (s, []).

(** What [autoTopUpFromTreasury] can throw. *)
Inductive thrown : Type :=
| NoFeeData                 (* new Error('No fee data from RPC') *)
| BadArgument               (* a value that does not fit uint256 *)
| Reverted (e : error).     (* the transaction reverted *)

Record report : Type := mkReport {
  funded : bool;
  sent : Z;
  total : Z;
  balAfter : option Z
}.

Definition DEFAULT_TOPUP_BUFFER_BPS : Z := 200.
Definition DEFAULT_FALLBACK_GAS_LIMIT : Z := 120000.

Definition fits_uint256 (x : Z) : bool := (0 <=? x) && (x <? UINT256_MOD).

(** [autoTopUpFromTreasury(childAddr, contractAsChild, tokenId)] with the
    answers of the provider made explicit: the two fee fields ([None] for
    null), the gas estimate ([None] when [estimateGas] threw), and the two
    environment settings.  Balances are read from, and the transaction is
    applied to, the chain state [s]. *)
Definition autoTopUpFromTreasury (signer childAddr : Z)
    (feeMaxFeePerGas feeGasPrice estimate : option Z)
    (TOPUP_BUFFER_BPS FALLBACK_GAS_LIMIT : Z) (s : state)
    : state * (thrown + report) :=
  let maxFeePerGas :=
    match feeMaxFeePerGas with Some v => Some v | None => feeGasPrice end in
  match maxFeePerGas with
  | None => (s, inl NoFeeData)
  | Some fee =>
      if fee =? 0 then (s, inl NoFeeData)
      else
        let gasLimit := default FALLBACK_GAS_LIMIT estimate in
        let estCost := gasLimit * fee in
        let buffer := Z.quot (estCost * TOPUP_BUFFER_BPS) 10000 in
        let total := estCost + buffer in
        let bal := balance_of s childAddr in
        if total <=? bal then (s, inr (mkReport false 0 total None))
        else
          let needed := total - bal in
          let threshold := bal + 1 in
          if negb (fits_uint256 needed && fits_uint256 threshold)
          then (s, inl BadArgument)
          else
            match distributeIfBelowFromTreasury signer [childAddr]
                    needed threshold s with
            | Revert e => (s, inl (Reverted e))
            | Ok (s', _) =>
                (s', inr (mkReport true needed total
                            (Some (balance_of s' childAddr))))
            end
  end.

(** *** The user store

    [db.users] is a plain JavaScript object.  Reading [users[k]] finds an own
    property first and otherwise follows the prototype chain; writing
    [users[k] = v] updates or creates an own property, except that
    ["__proto__"], when it is not an own property, is the accessor of
    [Object.prototype] and replaces the object's prototype. *)

Inductive value : Type :=
| Wallet (address privateKey : string)   (* a stored record *)
| Str (s : string)
| Builtin (name : string)                (* a member of Object.prototype *)
| ObjectPrototype.

Record object : Type := mkObject {
  own : gmap string value;
  proto : option (string * string)       (* None: Object.prototype *)
}.

Record database : Type := mkDatabase { users : object }.

Definition OBJECT_PROTOTYPE_MEMBERS : list string :=
  ["constructor"; "__defineGetter__"; "__defineSetter__"; "hasOwnProperty";
   "__lookupGetter__"; "__lookupSetter__"; "isPrototypeOf";
   "propertyIsEnumerable"; "toString"; "valueOf"; "toLocaleString"].

Definition inherited (k : string) : option value :=
  if bool_decide (k ∈ OBJECT_PROTOTYPE_MEMBERS) then Some (Builtin k)
  else None.

(** [o[k]]; [None] is [undefined]. *)
Definition get_property (o : object) (k : string) : option value :=
  match own o !! k with
  | Some v => Some v
  | None =>
      if bool_decide (k = "__proto__") then
        Some (match proto o with
              | Some (a, p) => Wallet a p
              | None => ObjectPrototype
              end)
      else
        match proto o with
        | Some (a, p) =>
            if bool_decide (k = "address") then Some (Str a)
            else if bool_decide (k = "privateKey") then Some (Str p)
            else inherited k
        | None => inherited k
        end
  end.

(** [o[k] = wallet] for a record [wallet]. *)
Definition set_property (o : object) (k : string) (wallet : string * string)
    : object :=
  match own o !! k with
  | Some _ => mkObject (<[k := Wallet wallet.1 wallet.2]> (own o)) (proto o)
  | None =>
      if bool_decide (k = "__proto__") then mkObject (own o) (Some wallet)
      else mkObject (<[k := Wallet wallet.1 wallet.2]> (own o)) (proto o)
  end.

Definition truthy (v : value) : bool :=
  match v with
  | Str s => negb (bool_decide (s = ""))
  | _ => true
  end.

Definition upsertUser (db : database) (username : string)
    (wallet : string * string) : database :=
  mkDatabase (set_property (users db) username wallet).

(** [db.users[username] || null]; [None] is [null]. *)
Definition getUser (db : database) (username : string) : option value :=
  match get_property (users db) username with
  | Some v => if truthy v then Some v else None
  | None => None
  end.

End Api.

(** ** A reference ERC721 base

    Owners by token id and token counts by holder, with the checks of the
    usual [_mint]: the recipient is not [address(0)] and the id is new. *)

Module Reference.
Import KazarToken.

Record tokens : Type := mkTokens {
  owners : gmap Z Z;
  counts : gmap Z Z
}.

Definition ref_exists (t : tokens) (id : Z) : bool :=
  negb (default 0 (owners t !! id) =? 0).

Definition ref_mint (t : tokens) (to id : Z) : option tokens :=
  if (to =? 0) || ref_exists t id then None
  else Some (mkTokens (<[id := to]> (owners t))
               (<[to := default 0 (counts t !! to) + 1]> (counts t))).

Definition ref_ownerOf (t : tokens) (id : Z) : option Z :=
  if ref_exists t id then Some (default 0 (owners t !! id)) else None.

#[export] Instance reference_erc721 : ERC721 tokens := {
  _exists := ref_exists;
  _mint := ref_mint;
  ownerOf := ref_ownerOf;
  toString := pretty
}.

Definition no_tokens : tokens := mkTokens ∅ ∅.

End Reference.

(** ** Inputs for the worked cases *)

Module Cases.
Import Kazar Scenario.

(** A call that throws twice and then returns 7. *)
Definition flaky (i : nat) : string + Z :=
  if (i <? 2)%nat then inl "busy" else inr 7.

(** A call that always throws. *)
Definition down (i : nat) : string + Z := inl "down".

(** A chain on which the ids below 3 are minted. *)
Definition minted_below_3 (id : Z) : bool := id <? 3.

Definition ownerOf_below_3 (id : Z) (i : nat) : string + Z :=
  if id <? 3 then inr OWNER else inl "revert".

Definition alice : string * string := ("0xA11CE", "0xKEY").

Definition fresh_db : Api.database := Api.mkDatabase (Api.mkObject ∅ None).

(** The token state in which R1 holds token 1 and nothing else exists. *)
Definition one_token : Reference.tokens :=
  Reference.mkTokens (<[1 := R1]> ∅) (<[R1 := 1]> ∅).

End Cases.

Import Kazar Scenario.
Import Supply KazarToken Reference Cases.

(** * Properties *)

(** ** Frame and arithmetic lemmas *)

Lemma wrap256_range (x : Z) : is_uint256 (wrap256 x).
Proof. unfold is_uint256, wrap256, UINT256_MOD. apply Z.mod_pos_bound. lia. Qed.

Lemma wrap256_small (x : Z) : is_uint256 x -> wrap256 x = x.
Proof. unfold is_uint256, wrap256. intros H. apply Z.mod_small. exact H. Qed.

Lemma wrap256_add_l (x y : Z) : wrap256 (wrap256 x + y) = wrap256 (x + y).
Proof. unfold wrap256. apply Zplus_mod_idemp_l. Qed.

Lemma balance_of_set_entered (e : bool) (s : state) (a : Z) :
  balance_of (set_entered e s) a = balance_of s a.
Proof. reflexivity. Qed.

Lemma need_loop_set_entered (e : bool) (s : state) (rs : list Z)
    (amount threshold acc : Z) :
  need_loop (set_entered e s) rs amount threshold acc
  = need_loop s rs amount threshold acc.
Proof.
  revert acc. induction rs as [|r rest IH]; intros acc; simpl.
  - reflexivity.
  - rewrite balance_of_set_entered. apply IH.
Qed.

Lemma under_count_nonneg (s : state) (rs : list Z) (threshold : Z) :
  0 <= under_count s rs threshold.
Proof.
  induction rs as [|r rest IH]; simpl.
  - lia.
  - destruct (balance_of s r <? threshold); lia.
Qed.

(** The accumulator of the first loop is the wrapped product. *)
Lemma need_loop_acc (s : state) (rs : list Z) (amount threshold acc : Z) :
  is_uint256 acc ->
  need_loop s rs amount threshold acc
  = wrap256 (acc + under_count s rs threshold * amount).
Proof.
  revert acc. induction rs as [|r rest IH]; intros acc Hacc; simpl.
  - rewrite Z.add_0_r. symmetry. apply wrap256_small. exact Hacc.
  - destruct (balance_of s r <? threshold).
    + rewrite IH by apply wrap256_range.
      rewrite wrap256_add_l. f_equal. lia.
    + rewrite IH by exact Hacc. f_equal.
Qed.

(** ** Authorization and the minter mapping *)

(** C10. Right after construction the deployer, who is also the initial
    owner, is a minter; no [addMinter] call is involved. *)
Theorem constructor_makes_deployer_minter (deployer at_ : Z)
    (b : gmap Z Z) (r : gset Z) :
  is_minter (constructor deployer at_ b r) deployer = true
  /\ owner (constructor deployer at_ b r) = deployer.
Proof.
  split; [|reflexivity].
  unfold is_minter, constructor. simpl.
  rewrite lookup_insert_eq. reflexivity.
Qed.

(** C8. Called by the owner, [removeMinter] of a non-member reverts with
    [NotMinter] and leaves the mapping as it was, and [addMinter] of a member
    succeeds with the mapping unchanged at every key. *)
Theorem minter_toggle_edge_cases (s : state) (caller account : Z) :
  caller = owner s ->
  (is_minter s account = false ->
     removeMinter caller account s = Revert NotMinter
     /\ fst (transact s (removeMinter caller account s)) = s)
  /\ (is_minter s account = true ->
     exists s',
       addMinter caller account s = Ok (s', [MinterAdded account])
       /\ minter s' = minter s
       /\ forall a, is_minter s' a = is_minter s a).
Proof.
  intros Hc. split.
  - intros Hm. unfold removeMinter, onlyOwner.
    rewrite bool_decide_eq_true_2 by exact Hc.
    rewrite Hm. simpl. split; reflexivity.
  - intros Hm. unfold addMinter, onlyOwner.
    rewrite bool_decide_eq_true_2 by exact Hc.
    eexists. split; [reflexivity|].
    assert (Hl : minter s !! account = Some true).
    { unfold is_minter in Hm. destruct (minter s !! account) as [v|].
      - simpl in Hm. congruence.
      - discriminate Hm. }
    assert (Heq : <[account := true]> (minter s) = minter s)
      by (apply insert_id; exact Hl).
    split.
    + simpl. exact Heq.
    + intros a. unfold is_minter. simpl. rewrite Heq. reflexivity.
Qed.

(** C6. A caller other than the owner gets [Unauthorized] from each of the
    four gated entry points, whatever the arguments and whatever the state
    (so before the guard, the pre-check and any transfer), and the
    transaction leaves the state as it was. *)
Theorem non_owner_is_unauthorized (s : state) (caller : Z)
    (rs : list Z) (amount threshold account to value : Z) :
  caller <> owner s ->
  transact s (distributeIfBelowFromTreasury caller rs amount threshold s)
    = (s, Failure Unauthorized)
  /\ transact s (sweep caller to value s) = (s, Failure Unauthorized)
  /\ transact s (addMinter caller account s) = (s, Failure Unauthorized)
  /\ transact s (removeMinter caller account s) = (s, Failure Unauthorized).
Proof.
  intros Hc.
  unfold distributeIfBelowFromTreasury, sweep, addMinter, removeMinter,
    onlyOwner.
  rewrite !bool_decide_eq_false_2 by exact Hc.
  repeat split.
Qed.

(** ** The ledger primitive *)

Lemma call_value_frame (s s' : state) (to v : Z) :
  call_value s to v = Some s' ->
  this s' = this s /\ refusing s' = refusing s /\ owner s' = owner s
  /\ minter s' = minter s /\ entered s' = entered s.
Proof.
  unfold call_value. intros H.
  destruct (balance_of s (this s) <? v); [discriminate|].
  destruct (to =? this s).
  - injection H as <-. repeat split.
  - destruct (bool_decide (to ∈ refusing s)); [discriminate|].
    injection H as <-. repeat split.
Qed.

Lemma move_lookup (f t v x : Z) (b : gmap Z Z) :
  f <> t ->
  default 0 (move f t v b !! x)
  = default 0 (b !! x) + (if x =? t then v else 0) - (if x =? f then v else 0).
Proof.
  intros Hft. unfold move. cbv zeta.
  rewrite (lookup_insert_ne b f t) by exact Hft.
  destruct (Z.eqb_spec x t) as [->|Hxt].
  - rewrite lookup_insert_eq.
    destruct (Z.eqb_spec t f) as [Heq|_]; [congruence|]. simpl. lia.
  - rewrite lookup_insert_ne by congruence.
    destruct (Z.eqb_spec x f) as [->|Hxf].
    + rewrite lookup_insert_eq. simpl. lia.
    + rewrite lookup_insert_ne by congruence. lia.
Qed.

(** A send that goes through credits the recipient and debits the contract
    by the same value; a send of the contract to itself nets to nothing. *)
Lemma call_value_balance (s s' : state) (to v x : Z) :
  call_value s to v = Some s' ->
  balance_of s' x
  = balance_of s x + (if x =? to then v else 0)
    - (if x =? this s then v else 0).
Proof.
  unfold call_value. intros H.
  destruct (balance_of s (this s) <? v); [discriminate|].
  destruct (Z.eqb_spec to (this s)) as [->|Hne].
  - injection H as <-. lia.
  - destruct (bool_decide (to ∈ refusing s)); [discriminate|].
    injection H as <-. unfold balance_of. simpl.
    apply move_lookup. congruence.
Qed.

Lemma call_value_refused (s : state) (to v : Z) :
  to ∈ refusing s -> to <> this s -> call_value s to v = None.
Proof.
  intros Hin Hne. unfold call_value.
  destruct (balance_of s (this s) <? v); [reflexivity|].
  destruct (Z.eqb_spec to (this s)) as [Heq|_]; [contradiction|].
  rewrite bool_decide_eq_true_2 by exact Hin. reflexivity.
Qed.

Lemma call_value_accepted (s : state) (to v : Z) :
  v <= balance_of s (this s) ->
  to ∉ refusing s ->
  exists s', call_value s to v = Some s'.
Proof.
  intros Hf Hacc. unfold call_value.
  destruct (Z.ltb_spec (balance_of s (this s)) v); [lia|].
  destruct (to =? this s); [eauto|].
  rewrite bool_decide_eq_false_2 by exact Hacc. eauto.
Qed.

(** ** The execution loop *)

Lemma times_paid_nonneg (a : Z) (tr : list log) : 0 <= times_paid a tr.
Proof.
  induction tr as [|e tr IH]; simpl; [lia|].
  destruct e as [x|x|to v]; try exact IH.
  destruct (to =? a); lia.
Qed.

Lemma times_paid_In (a : Z) (tr : list log) :
  In a (paid tr) <-> 0 < times_paid a tr.
Proof.
  induction tr as [|e tr IH]; simpl.
  - split; [tauto|lia].
  - destruct e as [x|x|to v]; try exact IH.
    simpl. pose proof (times_paid_nonneg a tr) as Hn.
    destruct (Z.eqb_spec to a) as [->|Hne].
    + split; [lia|auto].
    + rewrite IH. split; [intros [Heq|Hp]; [congruence|lia]|right; lia].
Qed.

Lemma exec_loop_frame (rs : list Z) (amount threshold : Z) :
  forall s s' tr,
    exec_loop s rs amount threshold = (s', tr) ->
    this s' = this s /\ refusing s' = refusing s /\ owner s' = owner s
    /\ minter s' = minter s /\ entered s' = entered s.
Proof.
  induction rs as [|to rest IH]; intros s s' tr H; simpl in H.
  - injection H as <- <-. repeat split.
  - destruct (to =? 0); [eauto|].
    destruct (balance_of s to <? threshold); [|eauto].
    destruct (call_value s to amount) as [s1|] eqn:Hcall; [|eauto].
    destruct (exec_loop s1 rest amount threshold) as [s2 tr2] eqn:Hrest.
    injection H as <- <-.
    apply call_value_frame in Hcall. apply IH in Hrest.
    destruct Hcall as (H1 & H2 & H3 & H4 & H5).
    destruct Hrest as (G1 & G2 & G3 & G4 & G5).
    repeat split; congruence.
Qed.

(** Exact accounting over the loop: every account gains [amount] per payment
    it received, and the contract loses [amount] per payment made. *)
Lemma exec_loop_balance (rs : list Z) (amount threshold x : Z) :
  forall s s' tr,
    exec_loop s rs amount threshold = (s', tr) ->
    balance_of s' x
    = balance_of s x + amount * times_paid x tr
      - (if x =? this s then amount * Z.of_nat (length (paid tr)) else 0).
Proof.
  induction rs as [|to rest IH]; intros s s' tr H; simpl in H.
  - injection H as <- <-. simpl. destruct (x =? this s); lia.
  - destruct (to =? 0); [eauto|].
    destruct (balance_of s to <? threshold); [|eauto].
    destruct (call_value s to amount) as [s1|] eqn:Hcall; [|eauto].
    destruct (exec_loop s1 rest amount threshold) as [s2 tr2] eqn:Hrest.
    injection H as <- <-.
    pose proof (call_value_frame _ _ _ _ Hcall) as (Ht & _).
    rewrite (IH _ _ _ Hrest), (call_value_balance _ _ _ _ x Hcall), Ht.
    cbn [paid times_paid length]. rewrite (Z.eqb_sym to x).
    destruct (x =? to), (x =? this s); lia.
Qed.

(** Every entry of the trace is a send of [amount] to a member of the batch
    other than [address(0)]. *)
Lemma exec_loop_trace (rs : list Z) (amount threshold : Z) :
  forall s s' tr,
    exec_loop s rs amount threshold = (s', tr) ->
    Forall (fun e => exists to, e = Sent to amount /\ In to rs /\ to <> 0) tr.
Proof.
  induction rs as [|to rest IH]; intros s s' tr H; simpl in H.
  - injection H as <- <-. constructor.
  - assert (Hweak : forall s0 s0' tr0,
               exec_loop s0 rest amount threshold = (s0', tr0) ->
               Forall (fun e => exists r, e = Sent r amount
                                          /\ In r (to :: rest) /\ r <> 0) tr0).
    { intros s0 s0' tr0 H0. eapply Forall_impl; [eapply IH; exact H0|].
      intros e (r & -> & Hin & Hr). exists r. simpl. auto. }
    destruct (Z.eqb_spec to 0) as [_|Hnz]; [eauto|].
    destruct (balance_of s to <? threshold); [|eauto].
    destruct (call_value s to amount) as [s1|] eqn:Hcall; [|eauto].
    destruct (exec_loop s1 rest amount threshold) as [s2 tr2] eqn:Hrest.
    injection H as <- <-. constructor; [|eauto].
    exists to. simpl. auto.
Qed.

(** An account that is not the contract and is not below the threshold is
    not paid, whatever the batch. *)
Lemma exec_loop_skips_funded (rs : list Z) (amount threshold a : Z) :
  forall s s' tr,
    a <> this s ->
    threshold <= balance_of s a ->
    exec_loop s rs amount threshold = (s', tr) ->
    times_paid a tr = 0.
Proof.
  induction rs as [|to rest IH]; intros s s' tr Ha Hb H; simpl in H.
  - injection H as <- <-. reflexivity.
  - destruct (to =? 0); [eauto|].
    destruct (Z.ltb_spec (balance_of s to) threshold) as [Hlt|_]; [|eauto].
    destruct (call_value s to amount) as [s1|] eqn:Hcall; [|eauto].
    destruct (exec_loop s1 rest amount threshold) as [s2 tr2] eqn:Hrest.
    injection H as <- <-.
    pose proof (call_value_frame _ _ _ _ Hcall) as (Ht & _).
    pose proof (call_value_balance _ _ _ _ a Hcall) as Hbal.
    cbn [times_paid].
    destruct (Z.eqb_spec to a) as [->|Hne]; [lia|].
    rewrite (IH s1 s2 tr2); [lia|congruence| |exact Hrest].
    rewrite Hbal.
    destruct (Z.eqb_spec a to) as [Heq|_]; [congruence|].
    destruct (Z.eqb_spec a (this s)) as [Heq|_]; [congruence|]. lia.
Qed.

(** ** The aggregate pre-check *)

Lemma distribute_as_owner (s : state) (caller : Z) (rs : list Z)
    (amount threshold : Z) :
  caller = owner s ->
  entered s = false ->
  distributeIfBelowFromTreasury caller rs amount threshold s
  = if balance_of s (this s) <? need_loop s rs amount threshold 0
    then Revert InsufficientTreasury
    else let '(s', tr) := exec_loop (set_entered true s) rs amount threshold in
         Ok (set_entered false s', tr).
Proof.
  intros Hc He.
  unfold distributeIfBelowFromTreasury, onlyOwner, nonReentrant.
  rewrite bool_decide_eq_true_2 by exact Hc.
  rewrite He. cbv zeta.
  rewrite need_loop_set_entered, balance_of_set_entered. simpl this.
  destruct (balance_of s (this s) <? need_loop s rs amount threshold 0).
  - reflexivity.
  - destruct (exec_loop (set_entered true s) rs amount threshold).
    reflexivity.
Qed.

(** C9. The requirement the gate uses is (number of entries below the
    threshold) x amount reduced modulo 2^256, and the gate compares the
    treasury with that wrapped value: the call is refused with
    [InsufficientTreasury] exactly when the treasury holds less than it.
    Once the product reaches 2^256 the computed requirement is strictly
    smaller than the true total, and a treasury that covers only the wrapped
    value passes the gate while holding less than the true total. *)
Theorem unchecked_need_wraps (s : state) (caller : Z) (rs : list Z)
    (amount threshold : Z) :
  caller = owner s ->
  entered s = false ->
  need_loop s rs amount threshold 0
    = wrap256 (under_count s rs threshold * amount)
  /\ (distributeIfBelowFromTreasury caller rs amount threshold s
        = Revert InsufficientTreasury
      <-> balance_of s (this s)
          < wrap256 (under_count s rs threshold * amount))
  /\ (UINT256_MOD <= under_count s rs threshold * amount ->
      need_loop s rs amount threshold 0 < under_count s rs threshold * amount
      /\ (need_loop s rs amount threshold 0 <= balance_of s (this s) ->
          balance_of s (this s) < UINT256_MOD ->
          balance_of s (this s) < under_count s rs threshold * amount
          /\ exists s' tr,
               distributeIfBelowFromTreasury caller rs amount threshold s
               = Ok (s', tr))).
Proof.
  intros Hc He.
  assert (Hneed : need_loop s rs amount threshold 0
                  = wrap256 (under_count s rs threshold * amount)).
  { rewrite need_loop_acc.
    - f_equal.
    - unfold is_uint256, UINT256_MOD. lia. }
  split; [exact Hneed|]. split.
  - rewrite distribute_as_owner by assumption. rewrite Hneed.
    destruct (Z.ltb_spec (balance_of s (this s))
                (wrap256 (under_count s rs threshold * amount)))
      as [Hlt|Hge].
    + split; [intros _; exact Hlt|reflexivity].
    + destruct (exec_loop (set_entered true s) rs amount threshold)
        as [s' tr].
      split; [discriminate|lia].
  - intros Hbig.
    pose proof (wrap256_range (under_count s rs threshold * amount)) as Hr.
    unfold is_uint256 in Hr.
    split; [rewrite Hneed; lia|].
    intros Hgate Hbal. split; [lia|].
    rewrite distribute_as_owner by assumption.
    destruct (Z.ltb_spec (balance_of s (this s))
                (need_loop s rs amount threshold 0)) as [Hlt|_]; [lia|].
    destruct (exec_loop (set_entered true s) rs amount threshold) as [s' tr].
    eauto.
Qed.

(** C3 (amended). When the sum of the top-ups over the entries below the
    threshold stays below 2^256 and exceeds the treasury balance, the call
    reverts with [InsufficientTreasury] and the state is as before. *)
Theorem insufficient_treasury_gate (s : state) (caller : Z) (rs : list Z)
    (amount threshold : Z) :
  caller = owner s ->
  entered s = false ->
  0 <= amount ->
  under_count s rs threshold * amount < UINT256_MOD ->
  balance_of s (this s) < under_count s rs threshold * amount ->
  transact s (distributeIfBelowFromTreasury caller rs amount threshold s)
  = (s, Failure InsufficientTreasury).
Proof.
  intros Hc He Ha Hsmall Hshort.
  rewrite distribute_as_owner by assumption.
  rewrite need_loop_acc by (unfold is_uint256, UINT256_MOD; lia).
  rewrite Z.add_0_l, wrap256_small.
  - destruct (Z.ltb_spec (balance_of s (this s))
                (under_count s rs threshold * amount)) as [_|Hge]; [|lia].
    reflexivity.
  - pose proof (under_count_nonneg s rs threshold). unfold is_uint256. nia.
Qed.

(** ** Whole calls *)

Lemma distribute_ok_inv (s s' : state) (caller : Z) (rs : list Z)
    (amount threshold : Z) (tr : list log) :
  distributeIfBelowFromTreasury caller rs amount threshold s = Ok (s', tr) ->
  caller = owner s /\ entered s = false
  /\ need_loop s rs amount threshold 0 <= balance_of s (this s)
  /\ exists s1,
       exec_loop (set_entered true s) rs amount threshold = (s1, tr)
       /\ s' = set_entered false s1.
Proof.
  intros H.
  assert (Hc : caller = owner s).
  { unfold distributeIfBelowFromTreasury, onlyOwner in H.
    destruct (bool_decide_reflect (caller = owner s)); [assumption|discriminate]. }
  assert (He : entered s = false).
  { unfold distributeIfBelowFromTreasury, onlyOwner, nonReentrant in H.
    rewrite bool_decide_eq_true_2 in H by exact Hc.
    destruct (entered s); [discriminate|reflexivity]. }
  rewrite distribute_as_owner in H by assumption.
  destruct (Z.ltb_spec (balance_of s (this s))
              (need_loop s rs amount threshold 0)) as [|Hge]; [discriminate|].
  destruct (exec_loop (set_entered true s) rs amount threshold)
    as [s1 tr1] eqn:Hexec.
  injection H as <- <-. eauto 6.
Qed.

(** A successful call touches balances only: the roles, the ledger's refusal
    set and the guard are as before. *)
Lemma distribute_frame (s s' : state) (caller : Z) (rs : list Z)
    (amount threshold : Z) (tr : list log) :
  distributeIfBelowFromTreasury caller rs amount threshold s = Ok (s', tr) ->
  s' = set_balances (balances s') s.
Proof.
  intros H.
  apply distribute_ok_inv in H as (_ & He & _ & s1 & Hexec & ->).
  apply exec_loop_frame in Hexec as (H1 & H2 & H3 & H4 & H5).
  destruct s as [t0 b0 r0 o0 m0 e0], s1 as [t b r o m e].
  simpl in *. subst. reflexivity.
Qed.

Lemma exec_loop_skips_refusing (rs : list Z) (amount threshold a : Z) :
  forall s s' tr,
    a ∈ refusing s ->
    a <> this s ->
    exec_loop s rs amount threshold = (s', tr) ->
    times_paid a tr = 0.
Proof.
  induction rs as [|to rest IH]; intros s s' tr Hr Ha H; simpl in H.
  - injection H as <- <-. reflexivity.
  - destruct (to =? 0); [eauto|].
    destruct (balance_of s to <? threshold); [|eauto].
    destruct (call_value s to amount) as [s1|] eqn:Hcall; [|eauto].
    destruct (exec_loop s1 rest amount threshold) as [s2 tr2] eqn:Hrest.
    injection H as <- <-.
    pose proof (call_value_frame _ _ _ _ Hcall) as (Ht & Hf & _).
    cbn [times_paid].
    destruct (Z.eqb_spec to a) as [->|Hne].
    + rewrite call_value_refused in Hcall by assumption. discriminate.
    + rewrite (IH s1 s2 tr2); [lia| | |exact Hrest]; congruence.
Qed.

Lemma drain_count_nonneg (s : state) (rs : list Z) (threshold : Z) :
  0 <= drain_count s rs threshold.
Proof.
  induction rs as [|r rest IH]; simpl; [lia|].
  destruct ((balance_of s r <? threshold) && negb (r =? this s)); lia.
Qed.

Lemma drain_count_set_entered (e : bool) (s : state) (rs : list Z)
    (threshold : Z) :
  drain_count (set_entered e s) rs threshold = drain_count s rs threshold.
Proof.
  induction rs as [|r rest IH]; simpl.
  - reflexivity.
  - rewrite balance_of_set_entered, IH. reflexivity.
Qed.

Lemma drain_count_le_under (s : state) (rs : list Z) (threshold : Z) :
  drain_count s rs threshold <= under_count s rs threshold.
Proof.
  induction rs as [|r rest IH]; simpl; [lia|].
  destruct (balance_of s r <? threshold), (r =? this s); simpl; lia.
Qed.

(** Payments only raise the balances of the other accounts, so they can
    only shrink the set of entries still to be funded. *)
Lemma drain_count_mono (s s' : state) (rs : list Z) (threshold : Z) :
  this s' = this s ->
  (forall x, x <> this s -> balance_of s x <= balance_of s' x) ->
  drain_count s' rs threshold <= drain_count s rs threshold.
Proof.
  intros Ht Hup. induction rs as [|r rest IH]; simpl; [lia|].
  rewrite Ht.
  destruct (Z.eqb_spec r (this s)) as [->|Hne].
  - rewrite !andb_false_r. lia.
  - specialize (Hup r Hne). rewrite !andb_true_r.
    destruct (Z.ltb_spec (balance_of s' r) threshold),
             (Z.ltb_spec (balance_of s r) threshold); lia.
Qed.

(** When the treasury covers every entry still to be funded, each send to
    an accepting recipient [R] goes through, and [R] is paid exactly as
    [expected_payments] says. *)
Lemma exec_loop_expected (rs : list Z) (amount threshold R : Z) :
  0 <= amount ->
  R <> 0 ->
  forall s s' tr,
    R <> this s ->
    R ∉ refusing s ->
    amount * drain_count s rs threshold <= balance_of s (this s) ->
    exec_loop s rs amount threshold = (s', tr) ->
    times_paid R tr
    = expected_payments R amount threshold (balance_of s R) rs.
Proof.
  intros Ha R0.
  induction rs as [|to rest IH]; intros s s' tr Rt Rr Hf H;
    simpl in H; cbn [expected_payments].
  - injection H as <- <-. reflexivity.
  - cbn [drain_count] in Hf.
    pose proof (drain_count_nonneg s rest threshold) as Hdc.
    assert (Hf' : amount * drain_count s rest threshold
                  <= balance_of s (this s)).
    { destruct ((balance_of s to <? threshold) && negb (to =? this s)); nia. }
    destruct (Z.eqb_spec to 0) as [->|Hnz].
    { destruct (Z.eqb_spec 0 R) as [Heq|_]; [congruence|]. simpl. eauto. }
    destruct (Z.ltb_spec (balance_of s to) threshold) as [Hlt|Hge].
    + destruct (call_value s to amount) as [s1|] eqn:Hcall.
      * destruct (exec_loop s1 rest amount threshold) as [s2 tr2] eqn:Hrest.
        injection H as <- <-. cbn [times_paid].
        pose proof (call_value_frame _ _ _ _ Hcall) as (Ht & Hrf & _).
        pose proof (call_value_balance _ _ _ _ R Hcall) as HbR.
        pose proof (call_value_balance _ _ _ _ (this s) Hcall) as Hbt.
        assert (Hmono : drain_count s1 rest threshold
                        <= drain_count s rest threshold).
        { apply drain_count_mono; [exact Ht|]. intros x Hx.
          rewrite (call_value_balance _ _ _ _ x Hcall).
          destruct (Z.eqb_spec x (this s)) as [Heq|_]; [congruence|].
          destruct (x =? to); lia. }
        pose proof (drain_count_nonneg s1 rest threshold) as Hdc1.
        assert (Hf1 : amount * drain_count s1 rest threshold
                      <= balance_of s1 (this s1)).
        { rewrite Ht, Hbt, Z.eqb_refl.
          destruct (Z.eqb_spec (this s) to) as [Heq|Hne].
          - nia.
          - destruct (Z.eqb_spec to (this s)) as [Heq|_]; [congruence|].
            simpl in Hf. nia. }
        rewrite (IH s1 s2 tr2); [|congruence|congruence|exact Hf1|exact Hrest].
        rewrite HbR.
        destruct (Z.eqb_spec R (this s)) as [Heq|_]; [congruence|].
        rewrite (Z.eqb_sym R to).
        destruct (Z.eqb_spec to R) as [->|Hne].
        -- destruct (Z.ltb_spec (balance_of s R) threshold); [|lia].
           simpl. rewrite Z.sub_0_r. reflexivity.
        -- simpl. rewrite Z.add_0_r, Z.sub_0_r. reflexivity.
      * assert (Hne : to <> R).
        { intros ->.
          destruct (call_value_accepted s R amount) as [s1 Hs1];
            [|exact Rr|congruence].
          destruct (Z.eqb_spec R (this s)) as [Heq|_]; [congruence|].
          simpl in Hf. nia. }
        destruct (Z.eqb_spec to R) as [Heq|_]; [congruence|]. simpl. eauto.
    + destruct (Z.ltb_spec (balance_of s R) threshold) as [Hlt|_].
      * destruct (Z.eqb_spec to R) as [->|_]; [lia|]. simpl. eauto.
      * rewrite andb_false_r. eauto.
Qed.

Lemma expected_payments_nonneg (R amount threshold : Z) (rs : list Z) :
  forall bal, 0 <= expected_payments R amount threshold bal rs.
Proof.
  induction rs as [|r rest IH]; intros bal; simpl; [lia|].
  destruct ((r =? R) && (bal <? threshold)).
  - specialize (IH (bal + amount)). lia.
  - apply IH.
Qed.

Lemma expected_payments_once (R amount threshold : Z) (rs : list Z) :
  forall bal,
    1 <= expected_payments R amount threshold bal rs -> bal < threshold.
Proof.
  induction rs as [|r rest IH]; intros bal H; simpl in H; [lia|].
  destruct (Z.ltb_spec bal threshold) as [Hlt|Hge]; [exact Hlt|].
  rewrite andb_false_r in H. exact (IH _ H).
Qed.

Lemma expected_payments_twice (R amount threshold : Z) (rs : list Z) :
  forall bal,
    2 <= expected_payments R amount threshold bal rs ->
    bal + amount < threshold.
Proof.
  induction rs as [|r rest IH]; intros bal H; simpl in H; [lia|].
  destruct ((r =? R) && (bal <? threshold)).
  - apply (expected_payments_once R amount threshold rest). lia.
  - exact (IH _ H).
Qed.

Lemma expected_payments_member (R amount threshold : Z) (rs : list Z) :
  forall bal,
    bal < threshold -> In R rs ->
    1 <= expected_payments R amount threshold bal rs.
Proof.
  induction rs as [|r rest IH]; intros bal Hb Hin; simpl in *; [tauto|].
  destruct (Z.ltb_spec bal threshold) as [_|Hge]; [|lia].
  destruct (Z.eqb_spec r R) as [->|Hne]; simpl.
  - pose proof (expected_payments_nonneg R amount threshold rest
                  (bal + amount)). lia.
  - destruct Hin as [Heq|Hin]; [congruence|]. apply IH; assumption.
Qed.

Lemma expected_payments_duplicate (R amount threshold : Z)
    (l1 l2 l3 : list Z) :
  forall bal,
    bal < threshold ->
    bal + amount < threshold ->
    2 <= expected_payments R amount threshold bal
           (l1 ++ R :: l2 ++ R :: l3).
Proof.
  assert (Hin : forall l, In R (l ++ R :: l3))
    by (intros l; apply in_or_app; right; left; reflexivity).
  induction l1 as [|x l1' IH]; intros bal Hb Hb2; simpl.
  - rewrite Z.eqb_refl.
    destruct (Z.ltb_spec bal threshold) as [_|Hge]; [|lia]. simpl.
    pose proof (expected_payments_member R amount threshold
                  (l2 ++ R :: l3) (bal + amount) Hb2 (Hin l2)). lia.
  - destruct (Z.ltb_spec bal threshold) as [_|Hge]; [|lia].
    destruct (Z.eqb_spec x R) as [->|Hne]; simpl.
    + assert (Hin' : In R (l1' ++ R :: l2 ++ R :: l3))
        by (apply in_or_app; right; left; reflexivity).
      pose proof (expected_payments_member R amount threshold
                    _ (bal + amount) Hb2 Hin'). lia.
    + apply IH; assumption.
Qed.

(** ** The top-up policy *)

(** C7. Eligibility is the strict test [balance < threshold]: an entry whose
    balance equals the threshold adds nothing to the requirement of the
    first loop, the second loop passes over it without a send, and a
    recipient other than the contract that is at its threshold when the call
    starts is not paid by the call and keeps its balance. *)
Theorem at_threshold_not_eligible (s : state) (to : Z) (rest : list Z)
    (amount threshold acc : Z) :
  balance_of s to = threshold ->
  need_loop s (to :: rest) amount threshold acc
    = need_loop s rest amount threshold acc
  /\ exec_loop s (to :: rest) amount threshold
    = exec_loop s rest amount threshold
  /\ (to <> this s ->
      forall caller rs s' tr,
        distributeIfBelowFromTreasury caller rs amount threshold s
          = Ok (s', tr) ->
        ~ In to (paid tr) /\ balance_of s' to = balance_of s to).
Proof.
  intros Hb. split; [|split].
  - simpl. rewrite Hb, Z.ltb_irrefl. reflexivity.
  - simpl. rewrite Hb, Z.ltb_irrefl. destruct (to =? 0); reflexivity.
  - intros Hne caller rs s' tr H.
    apply distribute_ok_inv in H as (_ & _ & _ & s1 & Hexec & ->).
    assert (Hz : times_paid to tr = 0).
    { apply (exec_loop_skips_funded rs amount threshold to _ _ _) in Hexec.
      - exact Hexec.
      - exact Hne.
      - rewrite balance_of_set_entered. lia. }
    split.
    + rewrite times_paid_In. lia.
    + rewrite balance_of_set_entered.
      rewrite (exec_loop_balance rs amount threshold to _ _ _ Hexec).
      rewrite balance_of_set_entered, Hz. simpl this.
      destruct (Z.eqb_spec to (this s)) as [Heq|_]; [contradiction|]. lia.
Qed.

(** C5 (amended). After a successful call every payment has moved exactly
    [amount] out of the treasury and into its recipient: an account other
    than the contract holds [amount] more per payment it received, and the
    treasury holds [amount] less per payment made to an account other than
    itself (a top-up of the contract's own address moves nothing). *)
Theorem exact_accounting (s s' : state) (caller : Z) (rs : list Z)
    (amount threshold : Z) (tr : list log) :
  distributeIfBelowFromTreasury caller rs amount threshold s = Ok (s', tr) ->
  balance_of s' (this s)
    = balance_of s (this s)
      - amount * (Z.of_nat (length (paid tr)) - times_paid (this s) tr)
  /\ (forall a, a <> this s ->
        balance_of s' a = balance_of s a + amount * times_paid a tr)
  /\ Forall (fun e => exists to, e = Sent to amount /\ In to rs /\ to <> 0) tr.
Proof.
  intros H.
  apply distribute_ok_inv in H as (_ & _ & _ & s1 & Hexec & ->).
  split; [|split].
  - rewrite balance_of_set_entered.
    rewrite (exec_loop_balance rs amount threshold _ _ _ _ Hexec).
    rewrite balance_of_set_entered. simpl this. rewrite Z.eqb_refl. lia.
  - intros a Ha. rewrite balance_of_set_entered.
    rewrite (exec_loop_balance rs amount threshold _ _ _ _ Hexec).
    rewrite balance_of_set_entered. simpl this.
    destruct (Z.eqb_spec a (this s)) as [Heq|_]; [contradiction|]. lia.
  - exact (exec_loop_trace rs amount threshold _ _ _ Hexec).
Qed.

(** C1 (amended). For every batch accepted by the pre-check the call
    succeeds whatever the ledger answers to the individual sends: a
    recipient that refuses the transfer is passed over and keeps its
    balance, and the payments to the other recipients stay committed.  In
    particular, when the requirement did not wrap, every accepting recipient
    of the batch that was below the threshold has been paid, however many
    sends to other recipients failed. *)
Theorem failed_transfer_is_ignored (s : state) (caller : Z) (rs : list Z)
    (amount threshold : Z) :
  caller = owner s ->
  entered s = false ->
  need_loop s rs amount threshold 0 <= balance_of s (this s) ->
  exists s' tr,
    transact s (distributeIfBelowFromTreasury caller rs amount threshold s)
      = (s', Success tr)
    /\ (forall r, r ∈ refusing s -> r <> this s ->
          ~ In r (paid tr) /\ balance_of s' r = balance_of s r)
    /\ (forall a, a <> this s ->
          balance_of s' a = balance_of s a + amount * times_paid a tr)
    /\ (0 <= amount ->
        under_count s rs threshold * amount < UINT256_MOD ->
        forall r, In r rs -> r <> 0 -> r <> this s -> r ∉ refusing s ->
          balance_of s r < threshold ->
          In r (paid tr) /\ balance_of s r + amount <= balance_of s' r).
Proof.
  intros Hc He Hgate.
  rewrite distribute_as_owner by assumption.
  destruct (Z.ltb_spec (balance_of s (this s))
              (need_loop s rs amount threshold 0)) as [Hlt|_]; [lia|].
  destruct (exec_loop (set_entered true s) rs amount threshold)
    as [s1 tr] eqn:Hexec.
  exists (set_entered false s1), tr.
  assert (Hbal : forall a, a <> this s ->
            balance_of (set_entered false s1) a
            = balance_of s a + amount * times_paid a tr).
  { intros a Ha. rewrite balance_of_set_entered.
    rewrite (exec_loop_balance rs amount threshold _ _ _ _ Hexec).
    rewrite balance_of_set_entered. simpl this.
    destruct (Z.eqb_spec a (this s)) as [Heq|_]; [contradiction|]. lia. }
  split; [reflexivity|]. split; [|split; [exact Hbal|]].
  - intros r Hr Hne.
    assert (Hz : times_paid r tr = 0).
    { apply (exec_loop_skips_refusing rs amount threshold r _ _ _) in Hexec;
        assumption. }
    split.
    + rewrite times_paid_In. lia.
    + rewrite (Hbal r Hne), Hz. lia.
  - intros Ha Hsmall r Hin H0 Hne Hacc Hlow.
    rewrite need_loop_acc in Hgate by (unfold is_uint256, UINT256_MOD; lia).
    rewrite Z.add_0_l in Hgate.
    pose proof (under_count_nonneg s rs threshold) as Hu.
    rewrite wrap256_small in Hgate by (unfold is_uint256; nia).
    pose proof (drain_count_le_under s rs threshold) as Hd.
    pose proof (drain_count_nonneg s rs threshold) as Hd0.
    assert (Hexp : times_paid r tr
                   = expected_payments r amount threshold (balance_of s r)
                       rs).
    { apply (exec_loop_expected rs amount threshold r Ha H0
               (set_entered true s) s1 tr); try assumption.
      rewrite drain_count_set_entered, balance_of_set_entered.
      simpl this. nia. }
    pose proof (expected_payments_member r amount threshold rs
                  (balance_of s r) Hlow Hin) as Hone.
    split.
    + rewrite times_paid_In. lia.
    + rewrite (Hbal r Hne). nia.
Qed.

(** C4 (amended). The call does not deduplicate, but the second loop reads
    each recipient's balance again at the moment of its entry.  In a batch
    accepted without wrap-around, an accepting recipient below the threshold
    that is listed twice is paid once for sure, and a second time exactly
    when its balance after the first payment is still below the threshold. *)
Theorem duplicate_recipient_rechecked (s s' : state) (caller R : Z)
    (l1 l2 l3 : list Z) (amount threshold : Z) (tr : list log) :
  0 <= amount ->
  under_count s (l1 ++ R :: l2 ++ R :: l3) threshold * amount < UINT256_MOD ->
  R <> 0 ->
  R <> this s ->
  R ∉ refusing s ->
  balance_of s R < threshold ->
  distributeIfBelowFromTreasury caller (l1 ++ R :: l2 ++ R :: l3)
    amount threshold s = Ok (s', tr) ->
  1 <= times_paid R tr
  /\ (2 <= times_paid R tr <-> balance_of s R + amount < threshold).
Proof.
  intros Ha Hsmall R0 Rt Rr Hb H.
  set (rs := l1 ++ R :: l2 ++ R :: l3) in *.
  apply distribute_ok_inv in H as (_ & _ & Hgate & s1 & Hexec & _).
  rewrite need_loop_acc in Hgate by (unfold is_uint256, UINT256_MOD; lia).
  rewrite Z.add_0_l in Hgate.
  pose proof (under_count_nonneg s rs threshold) as Hu.
  rewrite wrap256_small in Hgate by (unfold is_uint256; nia).
  pose proof (drain_count_le_under s rs threshold) as Hd.
  pose proof (drain_count_nonneg s rs threshold) as Hd0.
  assert (Hexp : times_paid R tr
                 = expected_payments R amount threshold (balance_of s R) rs).
  { apply (exec_loop_expected rs amount threshold R Ha R0
             (set_entered true s) s1 tr); try assumption.
    rewrite drain_count_set_entered, balance_of_set_entered.
    simpl this. nia. }
  rewrite Hexp. split; [|split].
  - apply expected_payments_member; [exact Hb|].
    unfold rs. apply in_or_app. right. left. reflexivity.
  - apply expected_payments_twice.
  - intros Hb2. apply expected_payments_duplicate; assumption.
Qed.

(** ** Worked scenarios *)

(** C2. With a treasury of 100 the batch of Scenario D ends as expected (the
    null entry is passed over, R2 receives 30, the treasury is left with
    70), but the first loop has counted the null entry as well: the
    requirement is 60, not 30.  With a treasury of 50 the same batch is
    refused, although the batch without the null entry is paid. *)
Theorem null_recipient_inflates_need :
  need_loop (deployed 100 [] []) [0; R2] 30 1 0 = 60
  /\ transact (deployed 100 [] [])
       (distributeIfBelowFromTreasury OWNER [0; R2] 30 1 (deployed 100 [] []))
     = (deployed 70 [(R2, 30)] [], Success [Sent R2 30])
  /\ transact (deployed 50 [] [])
       (distributeIfBelowFromTreasury OWNER [0; R2] 30 1 (deployed 50 [] []))
     = (deployed 50 [] [], Failure InsufficientTreasury)
  /\ transact (deployed 50 [] [])
       (distributeIfBelowFromTreasury OWNER [R2] 30 1 (deployed 50 [] []))
     = (deployed 20 [(R2, 30)] [], Success [Sent R2 30]).
Proof. repeat split; vm_compute; reflexivity. Qed.

(** C1, counterexample.  Treasury 100, R1 accepts, R2 refuses plain
    transfers, both hold nothing; top-up 30 below threshold 1.  The batch
    passes the pre-check, the send to the eligible R2 fails, and the call
    still succeeds with the payment to R1 committed. *)
Lemma failed_transfer_does_not_abort :
  need_loop (deployed 100 [] [R2]) [R1; R2] 30 1 0
    <= balance_of (deployed 100 [] [R2]) TREASURY
  /\ balance_of (deployed 100 [] [R2]) R2 < 1
  /\ call_value (deployed 100 [] [R2]) R2 30 = None
  /\ transact (deployed 100 [] [R2])
       (distributeIfBelowFromTreasury OWNER [R1; R2] 30 1
          (deployed 100 [] [R2]))
     = (deployed 70 [(R1, 30)] [R2], Success [Sent R1 30])
  /\ balance_of (deployed 70 [(R1, 30)] [R2]) R1
     <> balance_of (deployed 100 [] [R2]) R1.
Proof.
  repeat split; try (vm_compute; reflexivity); vm_compute; discriminate.
Qed.

(** C3, counterexample.  Two recipients below the threshold and a top-up of
    2^255 + 10 need 2^256 + 20 in total, more than the treasury of
    2^255 + 30; the wrapped requirement is 20, the call goes through and R1
    is paid. *)
Lemma wrapped_need_passes_gate :
  balance_of (deployed (2 ^ 255 + 30) [] []) TREASURY
    < under_count (deployed (2 ^ 255 + 30) [] []) [R1; R2] 1 * (2 ^ 255 + 10)
  /\ transact (deployed (2 ^ 255 + 30) [] [])
       (distributeIfBelowFromTreasury OWNER [R1; R2] (2 ^ 255 + 10) 1
          (deployed (2 ^ 255 + 30) [] []))
     = (deployed 20 [(R1, 2 ^ 255 + 10)] [],
        Success [Sent R1 (2 ^ 255 + 10)]).
Proof. split; vm_compute; reflexivity. Qed.

(** C4, counterexample.  Treasury 100; R1 holds nothing and is listed twice;
    top-up 30 below threshold 1.  The first payment lifts R1 to 30, the
    second entry finds it above the threshold, and R1 is paid once. *)
Lemma duplicate_paid_once :
  balance_of (deployed 100 [] []) R1 < 1
  /\ transact (deployed 100 [] [])
       (distributeIfBelowFromTreasury OWNER [R1; R1] 30 1
          (deployed 100 [] []))
     = (deployed 70 [(R1, 30)] [], Success [Sent R1 30])
  /\ times_paid R1 [Sent R1 30] <> 2.
Proof.
  repeat split; try (vm_compute; reflexivity); vm_compute; discriminate.
Qed.

(** C5, counterexample.  Treasury 100, top-up 30 below threshold 200, batch
    R1, R1, and the contract's own address.  Three payments go through; the
    treasury ends at 40, not at 100 - 3 x 30, and R1 ends 60 up, not 30. *)
Lemma accounting_self_and_duplicate :
  transact (deployed 100 [] [])
    (distributeIfBelowFromTreasury OWNER [R1; R1; TREASURY] 30 200
       (deployed 100 [] []))
  = (deployed 40 [(R1, 60)] [],
     Success [Sent R1 30; Sent R1 30; Sent TREASURY 30])
  /\ balance_of (deployed 40 [(R1, 60)] []) TREASURY
     <> balance_of (deployed 100 [] []) TREASURY
        - 30 * Z.of_nat
                 (length (paid [Sent R1 30; Sent R1 30; Sent TREASURY 30]))
  /\ balance_of (deployed 40 [(R1, 60)] []) R1
     <> balance_of (deployed 100 [] []) R1 + 30.
Proof.
  repeat split; try (vm_compute; reflexivity); vm_compute; discriminate.
Qed.

(** ** The theorems at concrete inputs *)

(** C6 at a stranger calling a funded contract. *)
Lemma non_owner_is_unauthorized_witness :
  R1 <> owner (deployed 100 [] [])
  /\ (transact (deployed 100 [] [])
        (distributeIfBelowFromTreasury R1 [R1] 30 1 (deployed 100 [] []))
      = (deployed 100 [] [], Failure Unauthorized)
      /\ transact (deployed 100 [] []) (sweep R1 R1 100 (deployed 100 [] []))
         = (deployed 100 [] [], Failure Unauthorized)
      /\ transact (deployed 100 [] []) (addMinter R1 R1 (deployed 100 [] []))
         = (deployed 100 [] [], Failure Unauthorized)
      /\ transact (deployed 100 [] [])
           (removeMinter R1 R1 (deployed 100 [] []))
         = (deployed 100 [] [], Failure Unauthorized)).
Proof.
  assert (H : R1 <> owner (deployed 100 [] [])) by (vm_compute; lia).
  split; [exact H|].
  exact (non_owner_is_unauthorized (deployed 100 [] []) R1 [R1] 30 1
           R1 R1 100 H).
Defined.

(** C8 at the owner removing a stranger and re-adding itself. *)
Lemma minter_toggle_edge_cases_witness :
  OWNER = owner (deployed 100 [] [])
  /\ is_minter (deployed 100 [] []) R1 = false
  /\ is_minter (deployed 100 [] []) OWNER = true
  /\ (removeMinter OWNER R1 (deployed 100 [] []) = Revert NotMinter
      /\ fst (transact (deployed 100 [] [])
                (removeMinter OWNER R1 (deployed 100 [] [])))
         = deployed 100 [] [])
  /\ (exists s',
        addMinter OWNER OWNER (deployed 100 [] [])
          = Ok (s', [MinterAdded OWNER])
        /\ minter s' = minter (deployed 100 [] [])
        /\ forall a, is_minter s' a = is_minter (deployed 100 [] []) a).
Proof.
  assert (H : OWNER = owner (deployed 100 [] [])) by reflexivity.
  assert (Hout : is_minter (deployed 100 [] []) R1 = false)
    by (vm_compute; reflexivity).
  assert (Hin : is_minter (deployed 100 [] []) OWNER = true)
    by (vm_compute; reflexivity).
  split; [exact H|]. split; [exact Hout|]. split; [exact Hin|]. split.
  - exact (proj1 (minter_toggle_edge_cases (deployed 100 [] []) OWNER R1 H)
             Hout).
  - exact (proj2 (minter_toggle_edge_cases (deployed 100 [] []) OWNER OWNER H)
             Hin).
Defined.

(** C9 at the batch of two recipients with a top-up of 2^255 + 10, whose
    requirement wraps to 20: a treasury of 2^255 + 30 passes the gate, a
    treasury of 10 is refused. *)
Lemma unchecked_need_wraps_witness :
  OWNER = owner (deployed (2 ^ 255 + 30) [] [])
  /\ entered (deployed (2 ^ 255 + 30) [] []) = false
  /\ UINT256_MOD
     <= under_count (deployed (2 ^ 255 + 30) [] []) [R1; R2] 1
        * (2 ^ 255 + 10)
  /\ need_loop (deployed (2 ^ 255 + 30) [] []) [R1; R2] (2 ^ 255 + 10) 1 0
     = 20
  /\ need_loop (deployed (2 ^ 255 + 30) [] []) [R1; R2] (2 ^ 255 + 10) 1 0
     <= balance_of (deployed (2 ^ 255 + 30) [] []) TREASURY
  /\ balance_of (deployed (2 ^ 255 + 30) [] []) TREASURY
     < under_count (deployed (2 ^ 255 + 30) [] []) [R1; R2] 1
       * (2 ^ 255 + 10)
  /\ (exists s' tr,
        distributeIfBelowFromTreasury OWNER [R1; R2] (2 ^ 255 + 10) 1
          (deployed (2 ^ 255 + 30) [] [])
        = Ok (s', tr))
  /\ balance_of (deployed 10 [] []) (this (deployed 10 [] []))
     < wrap256 (under_count (deployed 10 [] []) [R1; R2] 1 * (2 ^ 255 + 10))
  /\ distributeIfBelowFromTreasury OWNER [R1; R2] (2 ^ 255 + 10) 1
       (deployed 10 [] [])
     = Revert InsufficientTreasury.
Proof.
  assert (Hc : OWNER = owner (deployed (2 ^ 255 + 30) [] []))
    by reflexivity.
  assert (He : entered (deployed (2 ^ 255 + 30) [] []) = false)
    by reflexivity.
  assert (Hbig : UINT256_MOD
                 <= under_count (deployed (2 ^ 255 + 30) [] []) [R1; R2] 1
                    * (2 ^ 255 + 10))
    by (vm_compute; discriminate).
  assert (Hgate : need_loop (deployed (2 ^ 255 + 30) [] []) [R1; R2]
                    (2 ^ 255 + 10) 1 0
                  <= balance_of (deployed (2 ^ 255 + 30) [] []) TREASURY)
    by (vm_compute; discriminate).
  assert (Hbal : balance_of (deployed (2 ^ 255 + 30) [] [])
                   (this (deployed (2 ^ 255 + 30) [] [])) < UINT256_MOD)
    by (vm_compute; reflexivity).
  assert (Hc' : OWNER = owner (deployed 10 [] [])) by reflexivity.
  assert (He' : entered (deployed 10 [] []) = false) by reflexivity.
  assert (Hlow : balance_of (deployed 10 [] []) (this (deployed 10 [] []))
                 < wrap256 (under_count (deployed 10 [] []) [R1; R2] 1
                            * (2 ^ 255 + 10)))
    by (vm_compute; reflexivity).
  destruct (unchecked_need_wraps (deployed (2 ^ 255 + 30) [] []) OWNER
              [R1; R2] (2 ^ 255 + 10) 1 Hc He) as (Hneed & _ & Hwrap).
  destruct (Hwrap Hbig) as [_ Hpass].
  destruct (Hpass Hgate Hbal) as [Hshort Hok].
  destruct (unchecked_need_wraps (deployed 10 [] []) OWNER
              [R1; R2] (2 ^ 255 + 10) 1 Hc' He') as (_ & Hrefuse & _).
  split; [exact Hc|]. split; [exact He|]. split; [exact Hbig|].
  split; [exact Hneed|]. split; [exact Hgate|]. split; [exact Hshort|].
  split; [exact Hok|]. split; [exact Hlow|].
  exact (proj2 Hrefuse Hlow).
Defined.

(** C3 (amended) at Scenario B: treasury 40, two recipients needing 30. *)
Lemma insufficient_treasury_gate_witness :
  OWNER = owner (deployed 40 [] [])
  /\ entered (deployed 40 [] []) = false
  /\ 0 <= 30
  /\ under_count (deployed 40 [] []) [R1; R2] 1 * 30 < UINT256_MOD
  /\ balance_of (deployed 40 [] []) (this (deployed 40 [] []))
     < under_count (deployed 40 [] []) [R1; R2] 1 * 30
  /\ transact (deployed 40 [] [])
       (distributeIfBelowFromTreasury OWNER [R1; R2] 30 1 (deployed 40 [] []))
     = (deployed 40 [] [], Failure InsufficientTreasury).
Proof.
  assert (Hc : OWNER = owner (deployed 40 [] [])) by reflexivity.
  assert (He : entered (deployed 40 [] []) = false) by reflexivity.
  assert (Ha : 0 <= 30) by lia.
  assert (Hs : under_count (deployed 40 [] []) [R1; R2] 1 * 30 < UINT256_MOD)
    by (vm_compute; reflexivity).
  assert (Hl : balance_of (deployed 40 [] []) (this (deployed 40 [] []))
               < under_count (deployed 40 [] []) [R1; R2] 1 * 30)
    by (vm_compute; reflexivity).
  do 5 (split; [assumption|]).
  exact (insufficient_treasury_gate (deployed 40 [] []) OWNER [R1; R2] 30 1
           Hc He Ha Hs Hl).
Defined.

(** C7 at R1 holding exactly the threshold of 5. *)
Lemma at_threshold_not_eligible_witness :
  balance_of (deployed 100 [(R1, 5)] []) R1 = 5
  /\ R1 <> this (deployed 100 [(R1, 5)] [])
  /\ distributeIfBelowFromTreasury OWNER [R1; R2] 30 5
       (deployed 100 [(R1, 5)] [])
     = Ok (deployed 70 [(R1, 5); (R2, 30)] [], [Sent R2 30])
  /\ need_loop (deployed 100 [(R1, 5)] []) [R1; R2] 30 5 0
     = need_loop (deployed 100 [(R1, 5)] []) [R2] 30 5 0
  /\ exec_loop (deployed 100 [(R1, 5)] []) [R1; R2] 30 5
     = exec_loop (deployed 100 [(R1, 5)] []) [R2] 30 5
  /\ ~ In R1 (paid [Sent R2 30])
  /\ balance_of (deployed 70 [(R1, 5); (R2, 30)] []) R1
     = balance_of (deployed 100 [(R1, 5)] []) R1.
Proof.
  assert (H : balance_of (deployed 100 [(R1, 5)] []) R1 = 5) by reflexivity.
  assert (Hne : R1 <> this (deployed 100 [(R1, 5)] []))
    by (vm_compute; lia).
  assert (Hok : distributeIfBelowFromTreasury OWNER [R1; R2] 30 5
                  (deployed 100 [(R1, 5)] [])
                = Ok (deployed 70 [(R1, 5); (R2, 30)] [], [Sent R2 30]))
    by (vm_compute; reflexivity).
  destruct (at_threshold_not_eligible (deployed 100 [(R1, 5)] []) R1 [R2]
              30 5 0 H) as (Hneed & Hexec & Hcall).
  destruct (Hcall Hne OWNER [R1; R2] _ _ Hok) as [Hpaid Hkeep].
  split; [exact H|]. split; [exact Hne|]. split; [exact Hok|].
  split; [exact Hneed|]. split; [exact Hexec|]. split; [exact Hpaid|].
  exact Hkeep.
Defined.

(** C5 (amended) at the batch R1, R1, treasury with top-up 30 below 200. *)
Lemma exact_accounting_witness :
  distributeIfBelowFromTreasury OWNER [R1; R1; TREASURY] 30 200
    (deployed 100 [] [])
  = Ok (deployed 40 [(R1, 60)] [],
        [Sent R1 30; Sent R1 30; Sent TREASURY 30])
  /\ balance_of (deployed 40 [(R1, 60)] []) (this (deployed 100 [] []))
     = balance_of (deployed 100 [] []) (this (deployed 100 [] []))
       - 30 * (Z.of_nat
                 (length (paid [Sent R1 30; Sent R1 30; Sent TREASURY 30]))
               - times_paid (this (deployed 100 [] []))
                   [Sent R1 30; Sent R1 30; Sent TREASURY 30])
  /\ (forall a, a <> this (deployed 100 [] []) ->
        balance_of (deployed 40 [(R1, 60)] []) a
        = balance_of (deployed 100 [] []) a
          + 30 * times_paid a [Sent R1 30; Sent R1 30; Sent TREASURY 30])
  /\ Forall (fun e => exists to, e = Sent to 30
                                 /\ In to [R1; R1; TREASURY] /\ to <> 0)
       [Sent R1 30; Sent R1 30; Sent TREASURY 30].
Proof.
  assert (H : distributeIfBelowFromTreasury OWNER [R1; R1; TREASURY] 30 200
                (deployed 100 [] [])
              = Ok (deployed 40 [(R1, 60)] [],
                    [Sent R1 30; Sent R1 30; Sent TREASURY 30]))
    by (vm_compute; reflexivity).
  split; [exact H|].
  exact (exact_accounting (deployed 100 [] []) (deployed 40 [(R1, 60)] [])
           OWNER [R1; R1; TREASURY] 30 200
           [Sent R1 30; Sent R1 30; Sent TREASURY 30] H).
Defined.

(** C1 (amended) at treasury 100 with R1 accepting and R2 refusing: the
    call succeeds, R2 is passed over, and R1 has been paid. *)
Lemma failed_transfer_is_ignored_witness :
  OWNER = owner (deployed 100 [] [R2])
  /\ entered (deployed 100 [] [R2]) = false
  /\ need_loop (deployed 100 [] [R2]) [R2; R1; R2] 30 1 0
     <= balance_of (deployed 100 [] [R2]) (this (deployed 100 [] [R2]))
  /\ R2 ∈ refusing (deployed 100 [] [R2])
  /\ (R1 ∉ refusing (deployed 100 [] [R2]))
  /\ balance_of (deployed 100 [] [R2]) R1 < 1
  /\ exists s' tr,
       transact (deployed 100 [] [R2])
         (distributeIfBelowFromTreasury OWNER [R2; R1; R2] 30 1
            (deployed 100 [] [R2]))
       = (s', Success tr)
       /\ (~ In R2 (paid tr)
           /\ balance_of s' R2 = balance_of (deployed 100 [] [R2]) R2)
       /\ (forall a, a <> this (deployed 100 [] [R2]) ->
             balance_of s' a
             = balance_of (deployed 100 [] [R2]) a + 30 * times_paid a tr)
       /\ In R1 (paid tr)
       /\ balance_of (deployed 100 [] [R2]) R1 + 30 <= balance_of s' R1.
Proof.
  assert (Hc : OWNER = owner (deployed 100 [] [R2])) by reflexivity.
  assert (He : entered (deployed 100 [] [R2]) = false) by reflexivity.
  assert (Hg : need_loop (deployed 100 [] [R2]) [R2; R1; R2] 30 1 0
               <= balance_of (deployed 100 [] [R2])
                    (this (deployed 100 [] [R2])))
    by (vm_compute; discriminate).
  assert (Hr2 : R2 ∈ refusing (deployed 100 [] [R2]))
    by (vm_compute; reflexivity).
  assert (Hr1 : R1 ∉ refusing (deployed 100 [] [R2]))
    by (vm_compute; discriminate).
  assert (Hlow : balance_of (deployed 100 [] [R2]) R1 < 1)
    by (vm_compute; reflexivity).
  assert (Ha : 0 <= 30) by lia.
  assert (Hsmall : under_count (deployed 100 [] [R2]) [R2; R1; R2] 1 * 30
                   < UINT256_MOD) by (vm_compute; reflexivity).
  assert (Hin : In R1 [R2; R1; R2]) by (right; left; reflexivity).
  assert (H10 : R1 <> 0) by (vm_compute; lia).
  assert (H1t : R1 <> this (deployed 100 [] [R2])) by (vm_compute; lia).
  assert (H2t : R2 <> this (deployed 100 [] [R2])) by (vm_compute; lia).
  split; [exact Hc|]. split; [exact He|]. split; [exact Hg|].
  split; [exact Hr2|]. split; [exact Hr1|]. split; [exact Hlow|].
  destruct (failed_transfer_is_ignored (deployed 100 [] [R2]) OWNER
              [R2; R1; R2] 30 1 Hc He Hg)
    as (s' & tr & Hrun & Hskip & Hacct & Hpaid).
  exists s', tr.
  split; [exact Hrun|]. split; [exact (Hskip R2 Hr2 H2t)|].
  split; [exact Hacct|].
  exact (Hpaid Ha Hsmall R1 Hin H10 H1t Hr1 Hlow).
Defined.

(** C4 (amended) at R1 listed twice with top-up 30 below threshold 100: the
    balance after the first payment, 30, is still below 100. *)
Lemma duplicate_recipient_rechecked_witness :
  0 <= 30
  /\ under_count (deployed 100 [] []) ([] ++ R1 :: [] ++ R1 :: []) 100 * 30
     < UINT256_MOD
  /\ R1 <> 0
  /\ R1 <> this (deployed 100 [] [])
  /\ (R1 ∉ refusing (deployed 100 [] []))
  /\ balance_of (deployed 100 [] []) R1 < 100
  /\ distributeIfBelowFromTreasury OWNER ([] ++ R1 :: [] ++ R1 :: []) 30 100
       (deployed 100 [] [])
     = Ok (deployed 40 [(R1, 60)] [], [Sent R1 30; Sent R1 30])
  /\ 1 <= times_paid R1 [Sent R1 30; Sent R1 30]
  /\ (2 <= times_paid R1 [Sent R1 30; Sent R1 30]
      <-> balance_of (deployed 100 [] []) R1 + 30 < 100).
Proof.
  assert (Ha : 0 <= 30) by lia.
  assert (Hs : under_count (deployed 100 [] []) ([] ++ R1 :: [] ++ R1 :: [])
                 100 * 30 < UINT256_MOD)
    by (vm_compute; reflexivity).
  assert (R0 : R1 <> 0) by (vm_compute; lia).
  assert (Rt : R1 <> this (deployed 100 [] [])) by (vm_compute; lia).
  assert (Rr : R1 ∉ refusing (deployed 100 [] []))
    by (vm_compute; discriminate).
  assert (Hb : balance_of (deployed 100 [] []) R1 < 100)
    by (vm_compute; reflexivity).
  assert (H : distributeIfBelowFromTreasury OWNER
                ([] ++ R1 :: [] ++ R1 :: []) 30 100 (deployed 100 [] [])
              = Ok (deployed 40 [(R1, 60)] [], [Sent R1 30; Sent R1 30]))
    by (vm_compute; reflexivity).
  do 7 (split; [assumption|]).
  exact (duplicate_recipient_rechecked (deployed 100 [] [])
           (deployed 40 [(R1, 60)] []) OWNER R1 [] [] [] 30 100
           [Sent R1 30; Sent R1 30] Ha Hs R0 Rt Rr Hb H).
Defined.

(** * Further properties of the contract *)

(** ** Sweep *)

Lemma sweep_as_owner (s : state) (caller to value : Z) :
  caller = owner s ->
  entered s = false ->
  sweep caller to value s
  = match call_value (set_entered true s) to value with
    | Some s2 => Ok (set_entered false s2, [Sent to value])
    | None => Revert SweepFailed
    end.
Proof.
  intros Hc He. unfold sweep, onlyOwner, nonReentrant.
  rewrite bool_decide_eq_true_2 by exact Hc. rewrite He.
  destruct (call_value (set_entered true s) to value); reflexivity.
Qed.

Lemma sweep_ok_inv (s s' : state) (caller to value : Z) (tr : list log) :
  sweep caller to value s = Ok (s', tr) ->
  caller = owner s /\ entered s = false /\ tr = [Sent to value]
  /\ exists s2, call_value (set_entered true s) to value = Some s2
                /\ s' = set_entered false s2.
Proof.
  intros H.
  assert (Hc : caller = owner s).
  { unfold sweep, onlyOwner in H.
    destruct (bool_decide_reflect (caller = owner s)); [assumption|discriminate]. }
  assert (He : entered s = false).
  { unfold sweep, onlyOwner, nonReentrant in H.
    rewrite bool_decide_eq_true_2 in H by exact Hc.
    destruct (entered s); [discriminate|reflexivity]. }
  rewrite sweep_as_owner in H by assumption.
  destruct (call_value (set_entered true s) to value) as [s2|] eqn:Hcall;
    [|discriminate].
  injection H as <- <-. eauto 6.
Qed.

(** X1. A sweep that succeeds moves exactly [value]: the destination gains
    it, the treasury loses it (nothing moves when the destination is the
    contract itself), no other balance changes, the treasury covered the
    amount beforehand, and roles, minters and guard are as before. *)
Theorem sweep_moves_exact_value (s s' : state) (caller to value : Z)
    (tr : list log) :
  sweep caller to value s = Ok (s', tr) ->
  tr = [Sent to value]
  /\ value <= balance_of s (this s)
  /\ (forall a,
        balance_of s' a
        = balance_of s a + (if a =? to then value else 0)
          - (if a =? this s then value else 0))
  /\ s' = set_balances (balances s') s.
Proof.
  intros H.
  apply sweep_ok_inv in H as (_ & He & -> & s2 & Hcall & ->).
  split; [reflexivity|]. split; [|split].
  - unfold call_value in Hcall.
    rewrite balance_of_set_entered in Hcall. simpl this in Hcall.
    destruct (Z.ltb_spec (balance_of s (this s)) value); [discriminate|lia].
  - intros a. rewrite balance_of_set_entered.
    rewrite (call_value_balance _ _ _ _ a Hcall). reflexivity.
  - apply call_value_frame in Hcall as (H1 & H2 & H3 & H4 & H5).
    destruct s as [t0 b0 r0 o0 m0 e0], s2 as [t b r o m e].
    simpl in *. subst. reflexivity.
Qed.

(** X2. Called by the owner outside a guarded call, [sweep] reverts with
    [SweepFailed] exactly when the treasury holds less than [value] or the
    destination (other than the contract itself) refuses the transfer; the
    state is then as before. *)
Theorem sweep_fails_exactly_when (s : state) (caller to value : Z) :
  caller = owner s ->
  entered s = false ->
  (sweep caller to value s = Revert SweepFailed
   <-> balance_of s (this s) < value \/ (to <> this s /\ to ∈ refusing s))
  /\ (sweep caller to value s = Revert SweepFailed ->
      transact s (sweep caller to value s) = (s, Failure SweepFailed))
  /\ (sweep caller to value s <> Revert SweepFailed ->
      exists s', sweep caller to value s = Ok (s', [Sent to value])).
Proof.
  intros Hc He. rewrite sweep_as_owner by assumption.
  unfold call_value. rewrite balance_of_set_entered. simpl this. simpl refusing.
  destruct (Z.ltb_spec (balance_of s (this s)) value) as [Hlt|Hge].
  { split; [|split].
    - split; [auto|reflexivity].
    - reflexivity.
    - intros Hne. contradiction. }
  destruct (Z.eqb_spec to (this s)) as [Hself|Hother].
  { split; [|split].
    - split; [discriminate|]. intros [Hlt|[Hne _]]; [lia|contradiction].
    - discriminate.
    - eauto. }
  destruct (bool_decide_reflect (to ∈ refusing s)) as [Hin|Hout].
  - split; [|split].
    + split; [auto|reflexivity].
    + reflexivity.
    + intros Hne. contradiction.
  - split; [|split].
    + split; [discriminate|]. intros [Hlt|[_ Hin]]; [lia|contradiction].
    + discriminate.
    + eauto.
Qed.

(** ** Conservation and solvency *)

Lemma total_supply_fresh (b : gmap Z Z) (k v : Z) :
  b !! k = None -> total_supply (<[k := v]> b) = v + total_supply b.
Proof.
  intros Hk. unfold total_supply.
  apply (map_fold_insert_L (fun _ v acc => v + acc)); [|exact Hk].
  intros. lia.
Qed.

Lemma total_supply_insert (b : gmap Z Z) (k v : Z) :
  total_supply (<[k := v]> b) = total_supply b - default 0 (b !! k) + v.
Proof.
  destruct (b !! k) as [old|] eqn:Hk; simpl.
  - rewrite <- (insert_delete_id b k old Hk) at 2.
    rewrite <- (insert_delete_eq b k v).
    rewrite !total_supply_fresh by apply lookup_delete_eq. lia.
  - rewrite total_supply_fresh by exact Hk. lia.
Qed.

Lemma move_total_supply (f t v : Z) (b : gmap Z Z) :
  total_supply (move f t v b) = total_supply b.
Proof.
  unfold move. cbv zeta. rewrite !total_supply_insert.
  destruct (Z.eq_dec f t) as [->|Hne].
  - rewrite lookup_insert_eq. simpl. lia.
  - rewrite lookup_insert_ne by exact Hne. lia.
Qed.

Lemma call_value_total_supply (s s' : state) (to v : Z) :
  call_value s to v = Some s' ->
  total_supply (balances s') = total_supply (balances s).
Proof.
  unfold call_value. intros H.
  destruct (balance_of s (this s) <? v); [discriminate|].
  destruct (to =? this s); [injection H as <-; reflexivity|].
  destruct (bool_decide (to ∈ refusing s)); [discriminate|].
  injection H as <-. simpl. apply move_total_supply.
Qed.

Lemma exec_loop_total_supply (rs : list Z) (amount threshold : Z) :
  forall s s' tr,
    exec_loop s rs amount threshold = (s', tr) ->
    total_supply (balances s') = total_supply (balances s).
Proof.
  induction rs as [|to rest IH]; intros s s' tr H; simpl in H.
  - injection H as <- <-. reflexivity.
  - destruct (to =? 0); [eauto|].
    destruct (balance_of s to <? threshold); [|eauto].
    destruct (call_value s to amount) as [s1|] eqn:Hcall; [|eauto].
    destruct (exec_loop s1 rest amount threshold) as [s2 tr2] eqn:Hrest.
    injection H as <- <-.
    rewrite (IH _ _ _ Hrest). exact (call_value_total_supply _ _ _ _ Hcall).
Qed.

(** X3. Neither [distributeIfBelowFromTreasury] nor [sweep] creates or
    destroys value: after a successful call the sum of all balances is what
    it was. *)
Theorem total_supply_conserved (s s' : state) (caller : Z) (tr : list log) :
  (forall rs amount threshold,
     distributeIfBelowFromTreasury caller rs amount threshold s
       = Ok (s', tr) ->
     total_supply (balances s') = total_supply (balances s))
  /\ (forall to value,
        sweep caller to value s = Ok (s', tr) ->
        total_supply (balances s') = total_supply (balances s)).
Proof.
  split.
  - intros rs amount threshold H.
    apply distribute_ok_inv in H as (_ & _ & _ & s1 & Hexec & ->).
    exact (exec_loop_total_supply _ _ _ _ _ _ Hexec).
  - intros to value H.
    apply sweep_ok_inv in H as (_ & _ & _ & s2 & Hcall & ->).
    exact (call_value_total_supply _ _ _ _ Hcall).
Qed.

Lemma call_value_solvent (s s' : state) (to v : Z) :
  0 <= v ->
  solvent s ->
  call_value s to v = Some s' ->
  solvent s'.
Proof.
  intros Hv Hs Hcall a.
  rewrite (call_value_balance _ _ _ _ a Hcall).
  assert (Hf : v <= balance_of s (this s)).
  { unfold call_value in Hcall.
    destruct (Z.ltb_spec (balance_of s (this s)) v); [discriminate|lia]. }
  specialize (Hs a).
  destruct (Z.eqb_spec a (this s)) as [Heq|_], (a =? to);
    try subst a; lia.
Qed.

Lemma exec_loop_solvent (rs : list Z) (amount threshold : Z) :
  0 <= amount ->
  forall s s' tr,
    solvent s ->
    exec_loop s rs amount threshold = (s', tr) ->
    solvent s'.
Proof.
  intros Ha. induction rs as [|to rest IH]; intros s s' tr Hs H; simpl in H.
  - injection H as <- <-. exact Hs.
  - destruct (to =? 0); [eauto|].
    destruct (balance_of s to <? threshold); [|eauto].
    destruct (call_value s to amount) as [s1|] eqn:Hcall; [|eauto].
    destruct (exec_loop s1 rest amount threshold) as [s2 tr2] eqn:Hrest.
    injection H as <- <-.
    eapply IH; [|exact Hrest].
    eapply call_value_solvent; eassumption.
Qed.

(** X4. No entry point overdraws an account: when every balance is
    non-negative before a successful top-up or sweep of a non-negative
    amount, every balance is non-negative after it. *)
Theorem solvency_preserved (s s' : state) (caller : Z) (tr : list log) :
  solvent s ->
  (forall rs amount threshold,
     0 <= amount ->
     distributeIfBelowFromTreasury caller rs amount threshold s
       = Ok (s', tr) ->
     solvent s')
  /\ (forall to value,
        0 <= value ->
        sweep caller to value s = Ok (s', tr) ->
        solvent s').
Proof.
  intros Hs. split.
  - intros rs amount threshold Ha H.
    apply distribute_ok_inv in H as (_ & _ & _ & s1 & Hexec & ->).
    intros a. rewrite balance_of_set_entered.
    apply (exec_loop_solvent rs amount threshold Ha _ _ _) in Hexec.
    + apply Hexec.
    + intros x. rewrite balance_of_set_entered. apply Hs.
  - intros to value Hv H.
    apply sweep_ok_inv in H as (_ & _ & _ & s2 & Hcall & ->).
    intros a. rewrite balance_of_set_entered.
    apply (call_value_solvent _ _ _ _ Hv) in Hcall.
    + apply Hcall.
    + intros x. rewrite balance_of_set_entered. apply Hs.
Qed.

(** ** More on the top-up policy *)

Lemma exec_loop_nobody_below (rs : list Z) (amount threshold : Z) (s : state) :
  under_count s rs threshold = 0 ->
  exec_loop s rs amount threshold = (s, []).
Proof.
  induction rs as [|to rest IH]; intros Hu; simpl in *; [reflexivity|].
  pose proof (under_count_nonneg s rest threshold) as Hn.
  destruct (balance_of s to <? threshold); [lia|].
  destruct (to =? 0); apply IH; lia.
Qed.

(** X5. A batch in which no entry is below the threshold (the empty batch
    in particular) succeeds without a single send and leaves the state
    untouched, whatever the treasury holds. *)
Theorem distribute_nobody_below (s : state) (caller : Z) (rs : list Z)
    (amount threshold : Z) :
  caller = owner s ->
  entered s = false ->
  0 <= balance_of s (this s) ->
  under_count s rs threshold = 0 ->
  distributeIfBelowFromTreasury caller rs amount threshold s = Ok (s, []).
Proof.
  intros Hc He Hb Hu.
  rewrite distribute_as_owner by assumption.
  rewrite need_loop_acc by (unfold is_uint256, UINT256_MOD; lia).
  rewrite Hu. replace (0 + 0 * amount) with 0 by lia.
  destruct (Z.ltb_spec (balance_of s (this s)) (wrap256 0)) as [Hlt|_].
  { unfold wrap256 in Hlt. rewrite Z.mod_0_l in Hlt; [lia|].
    unfold UINT256_MOD. lia. }
  rewrite exec_loop_nobody_below
    by (rewrite <- Hu; clear; induction rs as [|r rest IH]; simpl;
        [reflexivity|rewrite balance_of_set_entered, IH; reflexivity]).
  destruct s as [t b r o m e]. simpl in *. subst. reflexivity.
Qed.

(** The payments that drain the treasury are at most as many as the entries
    the first loop could count for accounts other than the contract. *)
Lemma exec_loop_drain_bound (rs : list Z) (amount threshold : Z) :
  0 <= amount ->
  forall s s' tr,
    exec_loop s rs amount threshold = (s', tr) ->
    Z.of_nat (length (paid tr)) - times_paid (this s) tr
    <= drain_count s rs threshold.
Proof.
  intros Ha. induction rs as [|to rest IH]; intros s s' tr H; simpl in H.
  - injection H as <- <-. simpl. lia.
  - cbn [drain_count].
    assert (Hskip : forall tr0,
              exec_loop s rest amount threshold = (s', tr0) ->
              Z.of_nat (length (paid tr0)) - times_paid (this s) tr0
              <= (if (balance_of s to <? threshold) && negb (to =? this s)
                  then 1 else 0) + drain_count s rest threshold).
    { intros tr0 H0. specialize (IH _ _ _ H0).
      destruct ((balance_of s to <? threshold) && negb (to =? this s)); lia. }
    destruct (to =? 0); [eauto|].
    destruct (Z.ltb_spec (balance_of s to) threshold) as [Hlt|Hge]; [|eauto].
    destruct (call_value s to amount) as [s1|] eqn:Hcall; [|eauto].
    destruct (exec_loop s1 rest amount threshold) as [s2 tr2] eqn:Hrest.
    injection H as <- <-.
    pose proof (call_value_frame _ _ _ _ Hcall) as (Ht & _).
    specialize (IH _ _ _ Hrest). rewrite Ht in IH.
    assert (Hmono : drain_count s1 rest threshold
                    <= drain_count s rest threshold).
    { apply drain_count_mono; [exact Ht|]. intros x Hx.
      rewrite (call_value_balance _ _ _ _ x Hcall).
      destruct (Z.eqb_spec x (this s)) as [Heq|_]; [congruence|].
      destruct (x =? to); lia. }
    cbn [paid times_paid length]. rewrite Nat2Z.inj_succ.
    destruct (to =? this s); simpl; lia.
Qed.

(** X6. A successful top-up never costs the treasury more than the true,
    unwrapped total of the entries below the threshold, and never adds to
    it. *)
Theorem distribute_spending_bounded (s s' : state) (caller : Z)
    (rs : list Z) (amount threshold : Z) (tr : list log) :
  0 <= amount ->
  distributeIfBelowFromTreasury caller rs amount threshold s = Ok (s', tr) ->
  balance_of s (this s) - under_count s rs threshold * amount
    <= balance_of s' (this s)
  /\ balance_of s' (this s) <= balance_of s (this s).
Proof.
  intros Ha H.
  apply distribute_ok_inv in H as (_ & _ & _ & s1 & Hexec & ->).
  rewrite balance_of_set_entered.
  rewrite (exec_loop_balance rs amount threshold _ _ _ _ Hexec).
  pose proof (exec_loop_drain_bound rs amount threshold Ha _ _ _ Hexec) as Hb.
  rewrite drain_count_set_entered in Hb. simpl this in *.
  rewrite balance_of_set_entered, Z.eqb_refl.
  pose proof (drain_count_le_under s rs threshold) as Hd.
  assert (Hself : times_paid (this s) tr <= Z.of_nat (length (paid tr))).
  { clear. induction tr as [|e tr IH]; simpl; [lia|].
    destruct e as [x|x|to v]; try exact IH.
    cbn [length]. rewrite Nat2Z.inj_succ. destruct (to =? this s); lia. }
  split; nia.
Qed.

Lemma exec_loop_order (rs : list Z) (amount threshold : Z) :
  forall s s' tr,
    exec_loop s rs amount threshold = (s', tr) ->
    paid tr `sublist_of` rs.
Proof.
  induction rs as [|to rest IH]; intros s s' tr H; simpl in H.
  - injection H as <- <-. constructor.
  - assert (Hskip : forall s0 tr0,
              exec_loop s0 rest amount threshold = (s', tr0) ->
              paid tr0 `sublist_of` to :: rest).
    { intros s0 tr0 H0. apply sublist_cons. eapply IH. exact H0. }
    destruct (to =? 0); [eauto|].
    destruct (balance_of s to <? threshold); [|eauto].
    destruct (call_value s to amount) as [s1|] eqn:Hcall; [|eauto].
    destruct (exec_loop s1 rest amount threshold) as [s2 tr2] eqn:Hrest.
    injection H as <- <-. simpl. apply sublist_skip. eapply IH. exact Hrest.
Qed.

(** X7. The recipients paid by a successful call are entries of the batch,
    taken in the order of the batch; none of them is [address(0)], and each
    one other than the contract itself was below the threshold when the call
    started. *)
Theorem distribute_pays_in_batch_order (s s' : state) (caller : Z)
    (rs : list Z) (amount threshold : Z) (tr : list log) :
  distributeIfBelowFromTreasury caller rs amount threshold s = Ok (s', tr) ->
  paid tr `sublist_of` rs
  /\ forall r, In r (paid tr) ->
       r <> 0 /\ (r <> this s -> balance_of s r < threshold).
Proof.
  intros H.
  apply distribute_ok_inv in H as (_ & _ & _ & s1 & Hexec & _).
  split; [exact (exec_loop_order _ _ _ _ _ _ Hexec)|].
  intros r Hr. split.
  - pose proof (exec_loop_trace _ _ _ _ _ _ Hexec) as Htr.
    clear Hexec. induction tr as [|e tr IH]; simpl in Hr; [contradiction|].
    inversion Htr as [|e0 tr0 (to & -> & _ & Hnz) Hrest]; subst.
    simpl in Hr. destruct Hr as [<-|Hr]; [exact Hnz|auto].
  - intros Hne.
    destruct (Z.lt_ge_cases (balance_of s r) threshold) as [Hlt|Hge];
      [exact Hlt|].
    apply times_paid_In in Hr.
    rewrite (exec_loop_skips_funded rs amount threshold r
               (set_entered true s) s1 tr Hne) in Hr;
      [lia| |exact Hexec].
    rewrite balance_of_set_entered. exact Hge.
Qed.

(** ** The minter mapping over several calls *)

(** X8. Called by the owner, [addMinter] makes the account a minter and
    touches no other entry; a following [removeMinter] takes the right away
    again, after which every account has the status it had before the first
    call unless it is the account itself; removing once more reverts with
    [NotMinter]. *)
Theorem minter_add_then_remove (s : state) (caller account : Z) :
  caller = owner s ->
  exists s1 s2,
    addMinter caller account s = Ok (s1, [MinterAdded account])
    /\ is_minter s1 account = true
    /\ (forall a, a <> account -> is_minter s1 a = is_minter s a)
    /\ removeMinter caller account s1 = Ok (s2, [MinterRemoved account])
    /\ is_minter s2 account = false
    /\ (forall a, a <> account -> is_minter s2 a = is_minter s a)
    /\ balances s2 = balances s /\ owner s2 = owner s
    /\ removeMinter caller account s2 = Revert NotMinter.
Proof.
  intros Hc.
  exists (set_minter (<[account := true]> (minter s)) s).
  exists (set_minter (delete account (<[account := true]> (minter s))) s).
  assert (H1 : is_minter (set_minter (<[account := true]> (minter s)) s)
                 account = true).
  { unfold is_minter. simpl. rewrite lookup_insert_eq. reflexivity. }
  assert (H2 : is_minter
                 (set_minter (delete account (<[account := true]> (minter s)))
                    s) account = false).
  { unfold is_minter. simpl. rewrite lookup_delete_eq. reflexivity. }
  split; [|split; [exact H1|split; [|split; [|split; [exact H2|split]]]]].
  - unfold addMinter, onlyOwner.
    rewrite bool_decide_eq_true_2 by exact Hc. reflexivity.
  - intros a Ha. unfold is_minter. simpl.
    rewrite lookup_insert_ne by congruence. reflexivity.
  - unfold removeMinter, onlyOwner. simpl owner.
    rewrite bool_decide_eq_true_2 by exact Hc. rewrite H1. reflexivity.
  - intros a Ha. unfold is_minter. simpl.
    rewrite lookup_delete_ne, lookup_insert_ne by congruence. reflexivity.
  - split; [reflexivity|]. split; [reflexivity|].
    unfold removeMinter, onlyOwner. simpl owner.
    rewrite bool_decide_eq_true_2 by exact Hc. rewrite H2. reflexivity.
Qed.

Lemma constructor_minter_lookup (deployer at_ : Z) (b : gmap Z Z)
    (r : gset Z) :
  is_minter (constructor deployer at_ b r) deployer = true
  /\ forall a, a <> deployer ->
       is_minter (constructor deployer at_ b r) a = false.
Proof.
  unfold is_minter, constructor. simpl. split.
  - rewrite lookup_insert_eq. reflexivity.
  - intros a Ha. rewrite lookup_insert_ne by congruence.
    rewrite lookup_empty. reflexivity.
Qed.

(** X9. Being the owner does not make an account a minter: once the
    deployer has removed itself from the mapping, its own mint calls revert
    with [NotMinter], whatever the token state and the inherited code. *)
Theorem owner_is_not_implicitly_minter {T : Type} `{ERC721 T}
    (deployer at_ : Z) (b : gmap Z Z) (r : gset Z) :
  exists s1,
    removeMinter deployer deployer (constructor deployer at_ b r)
      = Ok (s1, [MinterRemoved deployer])
    /\ owner s1 = deployer
    /\ forall (t : T) to tokenId addresses tokenIds,
         mintUniqueTokenTo deployer to tokenId s1 t = inl (Custom NotMinter)
         /\ mintToMany deployer addresses tokenIds s1 t
            = inl (Custom NotMinter).
Proof.
  eexists. split; [|split].
  - unfold removeMinter, onlyOwner. simpl owner.
    rewrite bool_decide_eq_true_2 by reflexivity.
    destruct (constructor_minter_lookup deployer at_ b r) as [-> _].
    reflexivity.
  - reflexivity.
  - intros t to tokenId addresses tokenIds.
    unfold mintUniqueTokenTo, mintToMany, is_minter. simpl.
    rewrite lookup_delete_eq. simpl. split; reflexivity.
Qed.

(** ** Minting, token URIs and check-in *)

Lemma mint_loop_all_exist {T : Type} `{ERC721 T} (t : T)
    (addresses tokenIds : list Z) :
  length addresses = length tokenIds ->
  Forall (fun id => _exists t id = true) tokenIds ->
  mint_loop t addresses tokenIds = inr t.
Proof.
  revert tokenIds.
  induction addresses as [|a addresses IH]; intros [|id tokenIds] Hlen Hall;
    simpl in *; try discriminate; try reflexivity.
  inversion Hall as [|? ? Hid Hrest]; subst.
  rewrite Hid. apply IH; [lia|exact Hrest].
Qed.

Lemma mint_loop_succeeds {T : Type} `{ERC721Laws T}
    (addresses tokenIds : list Z) :
  forall t,
    length addresses = length tokenIds ->
    Forall (fun a => a <> 0) addresses ->
    exists t',
      mint_loop t addresses tokenIds = inr t'
      /\ (forall id, In id tokenIds -> _exists t' id = true)
      /\ (forall id, _exists t id = true -> _exists t' id = true).
Proof.
  revert tokenIds.
  induction addresses as [|a addresses IH]; intros [|id tokenIds] t Hlen Hnz;
    simpl in *; try discriminate.
  - exists t. split; [reflexivity|]. split; [contradiction|auto].
  - inversion Hnz as [|? ? Ha Hrest]; subst.
    destruct (_exists t id) eqn:Hid.
    + destruct (IH tokenIds t) as (t' & Hrun & Hall & Hkeep);
        [lia|exact Hrest|].
      exists t'. split; [exact Hrun|]. split; [|exact Hkeep].
      intros id' [<-|Hin]; auto.
    + destruct (mint_fresh t a id Ha Hid) as [t1 Hmint]. rewrite Hmint.
      destruct (mint_exists _ _ _ _ Hmint) as [Hnew Hold].
      destruct (IH tokenIds t1) as (t' & Hrun & Hall & Hkeep);
        [lia|exact Hrest|].
      exists t'. split; [exact Hrun|]. split.
      * intros id' [<-|Hin]; auto.
      * auto.
Qed.

(** X10. [mintToMany] tests the caller first and the lengths second; for a
    minter with arrays of equal length and no [address(0)] among the
    recipients it does not revert, ids already minted (before the call or
    earlier in the batch) being passed over, and afterwards every listed id
    exists and no earlier token is lost. *)
Theorem mintToMany_outcomes {T : Type} `{ERC721Laws T} (caller : Z)
    (addresses tokenIds : list Z) (s : state) (t : T) :
  (is_minter s caller = false ->
     mintToMany caller addresses tokenIds s t = inl (Custom NotMinter))
  /\ (is_minter s caller = true ->
      length addresses <> length tokenIds ->
      mintToMany caller addresses tokenIds s t = inl (Custom LengthMismatch))
  /\ (is_minter s caller = true ->
      length addresses = length tokenIds ->
      Forall (fun a => a <> 0) addresses ->
      exists t',
        mintToMany caller addresses tokenIds s t = inr t'
        /\ (forall id, In id tokenIds -> _exists t' id = true)
        /\ (forall id, _exists t id = true -> _exists t' id = true)).
Proof.
  unfold mintToMany. split; [|split].
  - intros ->. reflexivity.
  - intros -> Hlen. simpl.
    destruct (Nat.eqb_spec (length addresses) (length tokenIds));
      [contradiction|reflexivity].
  - intros -> Hlen Hnz. simpl. rewrite Hlen, Nat.eqb_refl. simpl.
    apply mint_loop_succeeds; [exact Hlen|exact Hnz].
Qed.

(** X11. Minting an id that already exists: [mintUniqueTokenTo] reverts
    inside the inherited [_mint], while [mintToMany] over ids that all exist
    succeeds and leaves the tokens as they were. *)
Theorem minting_existing_ids {T : Type} `{ERC721Laws T} (caller : Z)
    (addresses tokenIds : list Z) (s : state) (t : T) :
  is_minter s caller = true ->
  length addresses = length tokenIds ->
  Forall (fun id => _exists t id = true) tokenIds ->
  mintToMany caller addresses tokenIds s t = inr t
  /\ forall to id, In id tokenIds ->
       mintUniqueTokenTo caller to id s t = inl Inherited.
Proof.
  intros Hm Hlen Hall. split.
  - unfold mintToMany. rewrite Hm, Hlen, Nat.eqb_refl. simpl.
    apply mint_loop_all_exist; assumption.
  - intros to id Hin. unfold mintUniqueTokenTo. rewrite Hm. simpl.
    assert (Hid : _exists t id = true).
    { apply (proj1 (Forall_forall _ _) Hall). apply list_elem_of_In.
      exact Hin. }
    rewrite (mint_taken t to id Hid). reflexivity.
Qed.

(** X12. After a successful [mintUniqueTokenTo], the recipient can check
    the token in, and every other caller is turned away with [NotOwner]. *)
Theorem mint_then_checkIn {T : Type} `{ERC721Laws T} (caller to tokenId : Z)
    (s : state) (t t' : T) :
  mintUniqueTokenTo caller to tokenId s t = inr t' ->
  checkIn to tokenId t' = inr (to, tokenId)
  /\ forall other, other <> to ->
       checkIn other tokenId t' = inl (Custom NotOwner).
Proof.
  unfold mintUniqueTokenTo. intros Hmint.
  destruct (negb (is_minter s caller)); [discriminate|].
  destruct (_mint t to tokenId) as [t1|] eqn:Hm; [|discriminate].
  injection Hmint as ->.
  unfold checkIn. rewrite (mint_owner _ _ _ _ Hm). split.
  - rewrite Z.eqb_refl. reflexivity.
  - intros other Hne.
    destruct (Z.eqb_spec to other) as [Heq|_]; [congruence|reflexivity].
Qed.

Lemma string_app_inj (p a b : string) : p +:+ a = p +:+ b -> a = b.
Proof.
  induction p as [|c p IH]; simpl; intros Heq.
  - exact Heq.
  - injection Heq as Heq. exact (IH Heq).
Qed.

(** X13. [tokenURI] reverts with [NonexistentToken] for an id that does not
    exist; for existing ids it returns the base URL followed by the id's
    digits, so two tokens never share a URI. *)
Theorem tokenURI_identifies_token {T : Type} `{ERC721Laws T} (t : T)
    (a b : Z) :
  (_exists t a = false -> tokenURI t a = inl (Custom NonexistentToken))
  /\ (_exists t a = true -> tokenURI t a = inr (BASE +:+ toString a))
  /\ (0 <= a -> 0 <= b ->
      forall uri, tokenURI t a = inr uri -> tokenURI t b = inr uri -> a = b).
Proof.
  unfold tokenURI. split; [|split].
  - intros ->. reflexivity.
  - intros ->. reflexivity.
  - intros Ha Hb uri Hua Hub.
    destruct (_exists t a); [|discriminate].
    destruct (_exists t b); [|discriminate].
    simpl in *. injection Hua as <-. injection Hub as Hub.
    apply (toString_inj a b Ha Hb). symmetry.
    exact (string_app_inj _ _ _ Hub).
Qed.

(** The reference base satisfies what the contract relies on. *)
Lemma reference_laws : ERC721Laws tokens.
Proof.
  split.
  - intros t to id Hto Hid. simpl in *. unfold ref_mint.
    destruct (Z.eqb_spec to 0) as [Heq|_]; [contradiction|].
    rewrite Hid. simpl. eauto.
  - intros t to id Hid. simpl in *. unfold ref_mint. rewrite Hid.
    rewrite orb_true_r. reflexivity.
  - intros t to id t' Hmint. simpl in *. unfold ref_mint in Hmint.
    destruct (Z.eqb_spec to 0) as [|Hto]; [discriminate|].
    destruct (ref_exists t id) eqn:Hid; [discriminate|].
    simpl in Hmint. injection Hmint as <-. unfold ref_exists in *. simpl.
    split.
    + rewrite lookup_insert_eq. simpl.
      destruct (Z.eqb_spec to 0); [contradiction|reflexivity].
    + intros id' Hid'.
      destruct (Z.eq_dec id id') as [<-|Hne].
      * rewrite Hid in Hid'. discriminate.
      * rewrite lookup_insert_ne by exact Hne. exact Hid'.
  - intros t to id t' Hmint. simpl in *. unfold ref_mint in Hmint.
    destruct (Z.eqb_spec to 0) as [|Hto]; [discriminate|].
    destruct (ref_exists t id) eqn:Hid; [discriminate|].
    simpl in Hmint. injection Hmint as <-.
    unfold ref_ownerOf, ref_exists. simpl. rewrite lookup_insert_eq. simpl.
    destruct (Z.eqb_spec to 0); [contradiction|reflexivity].
  - intros a b _ _ Hab. simpl in Hab. exact (pretty_Z_inj a b Hab).
Qed.

(** * The scripts *)

(** ** Retrying with back-off *)

Lemma retry_loop_first_success {A E : Type} (fn : nat -> E + A)
    (baseDelay : Z) (a : A) (k : nat) :
  forall n i lastErr slept,
    (k < n)%nat ->
    (forall j, (j < k)%nat -> exists e, fn (i + j)%nat = inl e) ->
    fn (i + k)%nat = inr a ->
    Script.retry_loop fn baseDelay n i lastErr slept
    = (inr a, slept ++ Script.backoff baseDelay i k).
Proof.
  induction k as [|k IH]; intros n i lastErr slept Hk Hfail Hok.
  - destruct n as [|n]; [lia|]. simpl.
    rewrite Nat.add_0_r in Hok. rewrite Hok.
    unfold Script.backoff. simpl. rewrite app_nil_r. reflexivity.
  - destruct n as [|n]; [lia|]. simpl.
    destruct (Hfail 0%nat) as [e He]; [lia|].
    rewrite Nat.add_0_r in He. rewrite He.
    rewrite (IH n (S i) (Some e)).
    + unfold Script.backoff. simpl. rewrite <- app_assoc. reflexivity.
    + lia.
    + intros j Hj. destruct (Hfail (S j)) as [e' He']; [lia|].
      exists e'. rewrite <- He'. f_equal. lia.
    + rewrite <- Hok. f_equal. lia.
Qed.

Lemma retry_loop_exhausted {A E : Type} (fn : nat -> E + A)
    (baseDelay : Z) :
  forall n i lastErr slept,
    (forall j, (j < n)%nat -> exists e, fn (i + j)%nat = inl e) ->
    Script.retry_loop fn baseDelay n i lastErr slept
    = (inl (match n with
            | O => lastErr
            | S m => match fn (i + m)%nat with
                     | inl e => Some e
                     | inr _ => lastErr
                     end
            end),
       slept ++ Script.backoff baseDelay i n).
Proof.
  induction n as [|n IH]; intros i lastErr slept Hfail.
  - simpl. unfold Script.backoff. simpl. rewrite app_nil_r. reflexivity.
  - simpl. destruct (Hfail 0%nat) as [e He]; [lia|].
    rewrite Nat.add_0_r in He. rewrite He.
    rewrite (IH (S i) (Some e)).
    + unfold Script.backoff. simpl. rewrite <- app_assoc. f_equal.
      destruct n as [|m].
      * rewrite Nat.add_0_r, He. reflexivity.
      * destruct (Hfail (S m)) as [e' He']; [lia|].
        rewrite Nat.add_succ_r in He'. rewrite Nat.add_succ_r.
        simpl. rewrite He'. reflexivity.
    + intros j Hj. destruct (Hfail (S j)) as [e' He']; [lia|].
      exists e'. rewrite <- He'. f_equal. lia.
Qed.

Lemma total_delay_app (d1 d2 : list Z) :
  Script.total_delay (d1 ++ d2)
  = Script.total_delay d1 + Script.total_delay d2.
Proof.
  unfold Script.total_delay. induction d1 as [|x d1 IH]; simpl; lia.
Qed.

(** Geometric sum of the back-off delays. *)
Lemma total_delay_backoff (baseDelay : Z) (k : nat) :
  forall i,
    Script.total_delay (Script.backoff baseDelay i k)
    = baseDelay * 2 ^ Z.of_nat i * (2 ^ Z.of_nat k - 1).
Proof.
  unfold Script.backoff, Script.total_delay.
  induction k as [|k IH]; intros i; simpl seq; simpl map; simpl foldr.
  - simpl. lia.
  - rewrite IH. rewrite !Nat2Z.inj_succ, !Z.pow_succ_r by lia. lia.
Qed.

(** X14. When the invocation of iteration [k] is the first to return, with
    [k] below [attempts], [withRetry] returns its value after exactly [k]
    failed invocations, having asked for the delays [baseDelay * 2^j],
    [j < k], which add up to [baseDelay * (2^k - 1)].  (The delays stay
    within the integers a JavaScript number holds exactly.) *)
Theorem withRetry_first_success {A E : Type} (fn : nat -> E + A)
    (attempts : nat) (baseDelay : Z) (k : nat) (a : A) :
  0 <= baseDelay ->
  baseDelay * 2 ^ Z.of_nat attempts <= 2 ^ 53 ->
  (k < attempts)%nat ->
  (forall j, (j < k)%nat -> exists e, fn j = inl e) ->
  fn k = inr a ->
  Script.withRetry fn attempts baseDelay
    = (inr a, Script.backoff baseDelay 0 k)
  /\ Script.total_delay (Script.backoff baseDelay 0 k)
     = baseDelay * (2 ^ Z.of_nat k - 1).
Proof.
  intros _ _ Hk Hfail Hok. split.
  - unfold Script.withRetry.
    rewrite (retry_loop_first_success fn baseDelay a k); auto.
  - rewrite total_delay_backoff. simpl. lia.
Qed.

(** X15. When every one of the [attempts] invocations throws, [withRetry]
    throws what the last one threw ([undefined] when [attempts] is 0, in
    which case [fn] is never invoked), and it has waited after each failure,
    the last one included: [baseDelay * (2^attempts - 1)] in all. *)
Theorem withRetry_exhausted {A E : Type} (fn : nat -> E + A)
    (attempts : nat) (baseDelay : Z) :
  0 <= baseDelay ->
  baseDelay * 2 ^ Z.of_nat attempts <= 2 ^ 53 ->
  (forall j, (j < attempts)%nat -> exists e, fn j = inl e) ->
  Script.withRetry fn attempts baseDelay
    = (inl (match attempts with
            | O => None
            | S m => match fn m with
                     | inl e => Some e
                     | inr _ => None
                     end
            end),
       Script.backoff baseDelay 0 attempts)
  /\ length (Script.backoff baseDelay 0 attempts) = attempts
  /\ Script.total_delay (Script.backoff baseDelay 0 attempts)
     = baseDelay * (2 ^ Z.of_nat attempts - 1).
Proof.
  intros _ _ Hfail. split; [|split].
  - unfold Script.withRetry.
    rewrite (retry_loop_exhausted fn baseDelay attempts 0 None []); auto.
  - unfold Script.backoff. rewrite length_map, length_seq. reflexivity.
  - rewrite total_delay_backoff. simpl. lia.
Qed.

(** ** Looking for a free token id *)

Lemma retry_loop_succeeds {A E : Type} (fn : nat -> E + A) (baseDelay : Z) :
  0 <= baseDelay ->
  forall n i lastErr slept,
    (exists j a, (j < n)%nat /\ fn (i + j)%nat = inr a) ->
    exists a d,
      Script.retry_loop fn baseDelay n i lastErr slept = (inr a, slept ++ d)
      /\ 0 <= Script.total_delay d.
Proof.
  intros Hb. induction n as [|n IH]; intros i lastErr slept (j & a & Hj & Ha).
  - lia.
  - simpl. destruct (fn i) as [e|a0] eqn:Hfn.
    + destruct j as [|j].
      { rewrite Nat.add_0_r, Hfn in Ha. discriminate. }
      destruct (IH (S i) (Some e) (slept ++ [baseDelay * 2 ^ Z.of_nat i]))
        as (a1 & d & Hrun & Hd).
      { exists j, a. split; [lia|]. rewrite <- Ha. f_equal. lia. }
      exists a1, ([baseDelay * 2 ^ Z.of_nat i] ++ d).
      split; [rewrite Hrun, <- app_assoc; reflexivity|].
      rewrite total_delay_app. unfold Script.total_delay at 1. simpl.
      assert (0 <= 2 ^ Z.of_nat i) by (apply Z.pow_nonneg; lia). nia.
    + exists a0, []. rewrite app_nil_r. split; [reflexivity|].
      unfold Script.total_delay. simpl. lia.
Qed.

Lemma script_find_loop_first_free {A E : Type} (ownerOf : Z -> nat -> E + A)
    (startId : Z) (k : nat) :
  forall n i slept,
    (k < n)%nat ->
    (forall j, (j < k)%nat ->
       exists m a, (m < Script.DEFAULT_ATTEMPTS)%nat
                   /\ ownerOf (startId + i + Z.of_nat j) m = inr a) ->
    (forall m, (m < Script.DEFAULT_ATTEMPTS)%nat ->
       exists e, ownerOf (startId + i + Z.of_nat k) m = inl e) ->
    exists d,
      Script.find_loop ownerOf startId n i slept
        = (Some (startId + i + Z.of_nat k), slept ++ d)
      /\ 9300 <= Script.total_delay d.
Proof.
  induction k as [|k IH]; intros n i slept Hk Htaken Hfree;
    (destruct n as [|n]; [lia|]); simpl Script.find_loop; cbv zeta.
  - replace (startId + i + Z.of_nat 0) with (startId + i) in * by lia.
    unfold Script.withRetry.
    rewrite (retry_loop_exhausted (ownerOf (startId + i))
               Script.DEFAULT_BASE_DELAY Script.DEFAULT_ATTEMPTS 0 None [])
      by (intros j Hj; apply Hfree; exact Hj).
    simpl app. eexists. split; [reflexivity|].
    rewrite total_delay_backoff. vm_compute. discriminate.
  - destruct (Htaken 0%nat) as (m & a & Hm & Ha); [lia|].
    replace (startId + i + Z.of_nat 0) with (startId + i) in Ha by lia.
    destruct (retry_loop_succeeds (ownerOf (startId + i))
                Script.DEFAULT_BASE_DELAY ltac:(vm_compute; discriminate)
                Script.DEFAULT_ATTEMPTS 0%nat None [])
      as (a0 & d0 & Hrun & Hd0).
    { exists m, a. split; [exact Hm|exact Ha]. }
    unfold Script.withRetry. rewrite Hrun. simpl app.
    destruct (IH n (i + 1) (slept ++ d0)) as (d1 & Hfind & Hd1).
    + lia.
    + intros j Hj. destruct (Htaken (S j)) as (m' & a' & Hm' & Ha'); [lia|].
      exists m', a'. split; [exact Hm'|].
      rewrite <- Ha'. f_equal. lia.
    + intros m' Hm'. destruct (Hfree m' Hm') as [e He]. exists e.
      rewrite <- He. f_equal. lia.
    + exists (d0 ++ d1). rewrite Hfind. split.
      * f_equal; [f_equal; lia|rewrite app_assoc; reflexivity].
      * rewrite total_delay_app. lia.
Qed.

(** X16. The script's [findFreeTokenId] returns the first candidate from
    [startId] on whose five [ownerOf] invocations all throw, passing over
    every candidate for which one of the five returns; declaring an id free
    therefore costs the whole back-off of 300 + 600 + 1200 + 2400 + 4800 ms
    at least. *)
Theorem script_findFreeTokenId_first_free {A E : Type}
    (ownerOf : Z -> nat -> E + A) (startId maxTries : Z) (k : nat) :
  Z.of_nat k < maxTries ->
  (forall j, (j < k)%nat ->
     exists m a, (m < 5)%nat /\ ownerOf (startId + Z.of_nat j) m = inr a) ->
  (forall m, (m < 5)%nat ->
     exists e, ownerOf (startId + Z.of_nat k) m = inl e) ->
  exists d,
    Script.findFreeTokenId ownerOf startId maxTries
      = (Some (startId + Z.of_nat k), d)
    /\ 9300 <= Script.total_delay d.
Proof.
  intros Hk Htaken Hfree. unfold Script.findFreeTokenId.
  destruct (script_find_loop_first_free ownerOf startId k
              (Z.to_nat maxTries) 0 []) as (d & Hfind & Hd).
  - lia.
  - intros j Hj. rewrite Z.add_0_r. exact (Htaken j Hj).
  - intros m Hm. rewrite Z.add_0_r. exact (Hfree m Hm).
  - exists d. rewrite Hfind. rewrite Z.add_0_r. split; [reflexivity|exact Hd].
Qed.

Lemma api_find_loop_some (returns : Z -> bool) (start id : Z) :
  forall n i,
    Api.find_loop returns start n i = Some id
    <-> (start + i <= id < start + i + Z.of_nat n
         /\ returns id = false
         /\ forall j, start + i <= j < id -> returns j = true).
Proof.
  induction n as [|n IH]; intros i; simpl Api.find_loop; cbv zeta.
  - split; [discriminate|lia].
  - destruct (returns (start + i)) eqn:Hr.
    + rewrite IH. split.
      * intros (Hrange & Hfree & Hbelow). split; [lia|]. split; [exact Hfree|].
        intros j Hj. destruct (Z.eq_dec j (start + i)) as [->|Hne];
          [exact Hr|apply Hbelow; lia].
      * intros (Hrange & Hfree & Hbelow).
        assert (id <> start + i) by (intros ->; congruence).
        split; [lia|]. split; [exact Hfree|].
        intros j Hj. apply Hbelow. lia.
    + split.
      * intros [= <-]. split; [lia|]. split; [exact Hr|]. intros j Hj. lia.
      * intros (Hrange & Hfree & Hbelow).
        destruct (Z.eq_dec id (start + i)) as [->|Hne]; [reflexivity|].
        rewrite Hbelow in Hr by lia. discriminate.
Qed.

Lemma api_find_loop_none (returns : Z -> bool) (start : Z) :
  forall n i,
    Api.find_loop returns start n i = None
    <-> forall j, start + i <= j < start + i + Z.of_nat n ->
          returns j = true.
Proof.
  induction n as [|n IH]; intros i; simpl Api.find_loop; cbv zeta.
  - split; [intros _ j Hj; lia|reflexivity].
  - destruct (returns (start + i)) eqn:Hr.
    + rewrite IH. split.
      * intros Hall j Hj. destruct (Z.eq_dec j (start + i)) as [->|Hne];
          [exact Hr|apply Hall; lia].
      * intros Hall j Hj. apply Hall. lia.
    + split; [discriminate|].
      intros Hall. rewrite Hall in Hr by lia. discriminate.
Qed.

(** X17. The service's [findFreeTokenId] returns exactly the least id of
    [start .. start + limit - 1] whose [ownerOf] call throws. *)
Theorem api_findFreeTokenId_least (returns : Z -> bool) (start limit id : Z) :
  Api.findFreeTokenId returns start limit = Some id
  <-> (start <= id < start + limit
       /\ returns id = false
       /\ forall j, start <= j < id -> returns j = true).
Proof.
  unfold Api.findFreeTokenId. rewrite api_find_loop_some.
  rewrite Z.add_0_r. split; intros (Hrange & Hfree & Hbelow);
    (split; [lia|split; [exact Hfree|exact Hbelow]]).
Qed.

(** X18. It gives up (the final [throw]) exactly when [ownerOf] returns
    for every id of the range; with a limit of zero or less it gives up
    without a single call. *)
Theorem api_findFreeTokenId_gives_up (returns : Z -> bool) (start limit : Z) :
  (Api.findFreeTokenId returns start limit = None
   <-> forall j, start <= j < start + limit -> returns j = true)
  /\ (limit <= 0 -> Api.findFreeTokenId returns start limit = None).
Proof.
  assert (Hiff : Api.findFreeTokenId returns start limit = None
                 <-> forall j, start <= j < start + limit ->
                       returns j = true).
  { unfold Api.findFreeTokenId. rewrite api_find_loop_none.
    rewrite Z.add_0_r. split; intros Hall j Hj; apply Hall; lia. }
  split; [exact Hiff|].
  intros Hlim. apply Hiff. intros j Hj. lia.
Qed.

(** * The REST service *)

(** ** Granting the minter role on demand *)

(** X19. [ensureMinter] sends nothing when the account is a minter
    already.  Whenever it returns, the account is a minter, no other entry of
    the mapping and not the owner have changed, a transaction was sent only
    if the account was not a minter before (and then by the contract's
    owner), and a second call sends nothing.  Sent by a wallet other than
    the owner for an account that is not a minter, it fails with the owner
    check of [addMinter]. *)
Theorem ensureMinter_grants_once (s : state) (signer account : Z) :
  (is_minter s account = true ->
     Api.ensureMinter signer account s = Ok (s, []))
  /\ (forall s1 tr,
        Api.ensureMinter signer account s = Ok (s1, tr) ->
        is_minter s1 account = true
        /\ (forall a, a <> account -> is_minter s1 a = is_minter s a)
        /\ owner s1 = owner s
        /\ (is_minter s account = false ->
            signer = owner s /\ tr = [MinterAdded account])
        /\ Api.ensureMinter signer account s1 = Ok (s1, []))
  /\ (signer <> owner s ->
      is_minter s account = false ->
      Api.ensureMinter signer account s = Revert Unauthorized).
Proof.
  split; [|split].
  - intros Hm. unfold Api.ensureMinter. rewrite Hm. reflexivity.
  - intros s1 tr H. unfold Api.ensureMinter in H.
    destruct (is_minter s account) eqn:Hm; simpl in H.
    + injection H as <- <-.
      split; [exact Hm|]. split; [reflexivity|]. split; [reflexivity|].
      split; [discriminate|].
      unfold Api.ensureMinter. rewrite Hm. reflexivity.
    + unfold addMinter, onlyOwner in H.
      destruct (bool_decide_reflect (signer = owner s)) as [Hc|Hc];
        [|discriminate].
      injection H as <- <-.
      assert (H1 : is_minter
                     (set_minter (<[account := true]> (minter s)) s) account
                   = true).
      { unfold is_minter. simpl. rewrite lookup_insert_eq. reflexivity. }
      split; [exact H1|]. split; [|split; [reflexivity|split]].
      * intros a Ha. unfold is_minter. simpl.
        rewrite lookup_insert_ne by congruence. reflexivity.
      * intros _. split; [exact Hc|reflexivity].
      * unfold Api.ensureMinter. rewrite H1. reflexivity.
  - intros Hc Hm. unfold Api.ensureMinter. rewrite Hm. simpl.
    unfold addMinter, onlyOwner.
    rewrite bool_decide_eq_false_2 by exact Hc. reflexivity.
Qed.

(** ** Topping a wallet up for a mint *)

Lemma distribute_single_recipient (s : state) (signer child needed : Z) :
  signer = owner s ->
  entered s = false ->
  child <> 0 ->
  child <> this s ->
  is_uint256 needed ->
  needed <= balance_of s (this s) ->
  distributeIfBelowFromTreasury signer [child] needed
    (balance_of s child + 1) s
  = if bool_decide (child ∈ refusing s) then Ok (s, [])
    else Ok (set_balances (move (this s) child needed (balances s)) s,
             [Sent child needed]).
Proof.
  intros Hc He H0 Ht Hn Hf.
  rewrite distribute_as_owner by assumption.
  simpl need_loop.
  destruct (Z.ltb_spec (balance_of s child) (balance_of s child + 1));
    [|lia].
  rewrite Z.add_0_l, wrap256_small by exact Hn.
  destruct (Z.ltb_spec (balance_of s (this s)) needed); [lia|].
  simpl exec_loop.
  destruct (Z.eqb_spec child 0); [contradiction|].
  rewrite balance_of_set_entered.
  destruct (Z.ltb_spec (balance_of s child) (balance_of s child + 1));
    [|lia].
  unfold call_value. rewrite balance_of_set_entered. simpl this.
  simpl refusing.
  destruct (Z.ltb_spec (balance_of s (this s)) needed); [lia|].
  destruct (Z.eqb_spec child (this s)); [contradiction|].
  destruct s as [t b r o m e]. simpl in *. subst.
  destruct (bool_decide (child ∈ r)); reflexivity.
Qed.

(** X20. Whenever [autoTopUpFromTreasury] returns a report with
    [funded: true] for an accepting child that is neither [address(0)], nor
    the contract, nor the signing wallet, the child held less than the
    estimated cost plus buffer before, holds exactly that total afterwards,
    and the treasury has lost exactly the difference; the report carries
    that difference as [sent] and the total as [balAfter]. *)
Theorem autoTopUp_brings_balance_to_total (s s' : state)
    (signer child bps fallback : Z)
    (feeMaxFeePerGas feeGasPrice estimate : option Z) (r : Api.report) :
  let fee :=
    default 0 (match feeMaxFeePerGas with
               | Some v => Some v
               | None => feeGasPrice
               end) in
  let estCost := default fallback estimate * fee in
  let total := estCost + Z.quot (estCost * bps) 10000 in
  let bal := balance_of s child in
  child <> 0 ->
  child <> this s ->
  child <> signer ->
  child ∉ refusing s ->
  Api.autoTopUpFromTreasury signer child feeMaxFeePerGas feeGasPrice
    estimate bps fallback s = (s', inr r) ->
  Api.funded r = true ->
  bal < total
  /\ r = Api.mkReport true (total - bal) total (Some total)
  /\ balance_of s' child = total
  /\ balance_of s' (this s) = balance_of s (this s) - (total - bal).
Proof.
  intros fee estCost total bal H0 Ht _ Hr H Hfunded.
  unfold Api.autoTopUpFromTreasury in H. subst fee.
  destruct (match feeMaxFeePerGas with
            | Some v => Some v
            | None => feeGasPrice
            end) as [fee|]; [|discriminate].
  simpl default in *.
  destruct (fee =? 0); [discriminate|].
  fold estCost in H. fold total in H. fold bal in H.
  destruct (Z.leb_spec total bal) as [Hle|Hgt].
  { injection H as <- <-. discriminate. }
  destruct (Api.fits_uint256 (total - bal) && Api.fits_uint256 (bal + 1))
    eqn:Hfit; [|discriminate].
  simpl negb in H. cbv iota in H.
  destruct (distributeIfBelowFromTreasury signer [child] (total - bal)
              (bal + 1) s) as [[s1 tr]|e] eqn:Hd; [|discriminate].
  injection H as <- <-.
  assert (Hn : is_uint256 (total - bal)).
  { apply andb_true_iff in Hfit as [Hf1 _]. unfold Api.fits_uint256 in Hf1.
    apply andb_true_iff in Hf1 as [Hlo Hhi].
    apply Z.leb_le in Hlo. apply Z.ltb_lt in Hhi.
    unfold is_uint256. lia. }
  pose proof (distribute_ok_inv _ _ _ _ _ _ _ Hd) as (Hc & He & Hgate & _).
  simpl need_loop in Hgate. fold bal in Hgate.
  destruct (Z.ltb_spec bal (bal + 1)); [|lia].
  rewrite Z.add_0_l, wrap256_small in Hgate by exact Hn.
  unfold bal in Hd at 2.
  rewrite distribute_single_recipient in Hd by assumption.
  rewrite bool_decide_eq_false_2 in Hd by exact Hr.
  injection Hd as <- <-.
  assert (Hchild : balance_of
                     (set_balances
                        (move (this s) child (total - bal) (balances s)) s)
                     child = total).
  { unfold balance_of. simpl. rewrite move_lookup by congruence.
    rewrite Z.eqb_refl.
    destruct (Z.eqb_spec child (this s)); [contradiction|].
    fold (balance_of s child). fold bal. lia. }
  split; [exact Hgt|]. split; [|split; [exact Hchild|]].
  - rewrite Hchild. reflexivity.
  - unfold balance_of. simpl. rewrite move_lookup by congruence.
    rewrite Z.eqb_refl.
    destruct (Z.eqb_spec (this s) child); [congruence|].
    fold (balance_of s (this s)). lia.
Qed.

(** X21. Whenever [autoTopUpFromTreasury] returns a report, [funded] is
    false exactly when the child already held the reported total; in that
    case no transaction was sent: the state is the one it started from,
    [sent] is 0 and there is no [balAfter]. *)
Theorem autoTopUp_effect_only_when_funded (s s' : state)
    (signer child bps fallback : Z)
    (feeMaxFeePerGas feeGasPrice estimate : option Z) (r : Api.report) :
  Api.autoTopUpFromTreasury signer child feeMaxFeePerGas feeGasPrice
    estimate bps fallback s = (s', inr r) ->
  (Api.funded r = false <-> Api.total r <= balance_of s child)
  /\ (Api.funded r = false ->
      s' = s /\ Api.sent r = 0 /\ Api.balAfter r = None).
Proof.
  unfold Api.autoTopUpFromTreasury. intros H.
  destruct (match feeMaxFeePerGas with
            | Some v => Some v
            | None => feeGasPrice
            end) as [fee|]; [|discriminate].
  destruct (fee =? 0); [discriminate|].
  set (total := default fallback estimate * fee
                + Z.quot (default fallback estimate * fee * bps) 10000) in *.
  destruct (Z.leb_spec total (balance_of s child)) as [Hle|Hgt].
  { injection H as <- <-. simpl. split; [split; auto|auto]. }
  destruct (negb (Api.fits_uint256 (total - balance_of s child)
                  && Api.fits_uint256 (balance_of s child + 1)));
    [discriminate|].
  destruct (distributeIfBelowFromTreasury signer [child]
              (total - balance_of s child) (balance_of s child + 1) s)
    as [[s1 tr]|e]; [|discriminate].
  injection H as <- <-. simpl. split; [split|]; [discriminate|lia|discriminate].
Qed.



(** ** The user store *)

(** X24. Whatever the name, a record stored with [upsertUser] is what
    [getUser] returns for that name. *)
Theorem upsertUser_getUser (db : Api.database) (username : string)
    (wallet : string * string) :
  Api.getUser (Api.upsertUser db username wallet) username
  = Some (Api.Wallet wallet.1 wallet.2).
Proof.
  unfold Api.getUser, Api.upsertUser, Api.set_property, Api.get_property.
  simpl. destruct (Api.own (Api.users db) !! username) eqn:Hown; simpl.
  - rewrite lookup_insert_eq. reflexivity.
  - destruct (bool_decide_reflect (username = "__proto__")) as [->|Hne];
      simpl.
    + rewrite Hown. simpl. destruct wallet. reflexivity.
    + rewrite lookup_insert_eq. reflexivity.
Qed.

(** X25. Storing a record under one name leaves the answer for every
    other name as it was, provided the name is not [__proto__] (or
    [__proto__] is already an own entry of the store). *)
Theorem upsertUser_other_names (db : Api.database) (username other : string)
    (wallet : string * string) :
  other <> username ->
  username <> "__proto__"
  \/ is_Some (Api.own (Api.users db) !! "__proto__") ->
  Api.getUser (Api.upsertUser db username wallet) other
  = Api.getUser db other.
Proof.
  intros Hne Hsafe.
  unfold Api.getUser, Api.upsertUser, Api.set_property, Api.get_property.
  simpl. destruct (Api.own (Api.users db) !! username) eqn:Hown; simpl.
  - rewrite lookup_insert_ne by congruence. reflexivity.
  - destruct (bool_decide_reflect (username = "__proto__")) as [->|Hnp];
      simpl.
    + destruct Hsafe as [Hp|[v Hv]]; [contradiction|congruence].
    + rewrite lookup_insert_ne by congruence. reflexivity.
Qed.

(** X26. A name that was never stored but is a member of
    [Object.prototype] (or [__proto__] itself) is still answered with a
    non-null value by [getUser]; on a store whose prototype was never
    replaced that value is not a user record. *)
Theorem getUser_inherited_names (db : Api.database) (username : string) :
  Api.own (Api.users db) !! username = None ->
  username ∈ Api.OBJECT_PROTOTYPE_MEMBERS \/ username = "__proto__" ->
  exists v, Api.getUser db username = Some v
            /\ (Api.proto (Api.users db) = None ->
                forall a p, v <> Api.Wallet a p).
Proof.
  intros Hown Hname. unfold Api.getUser, Api.get_property. rewrite Hown.
  destruct (bool_decide_reflect (username = "__proto__")) as [->|Hnp].
  - destruct (Api.proto (Api.users db)) as [[a p]|].
    + eexists. split; [reflexivity|]. discriminate.
    + eexists. split; [reflexivity|]. discriminate.
  - destruct Hname as [Hin|Heq]; [|contradiction].
    assert (Hinh : Api.inherited username = Some (Api.Builtin username)).
    { unfold Api.inherited. rewrite bool_decide_eq_true_2 by exact Hin.
      reflexivity. }
    assert (Ha : username <> "address").
    { intros ->. revert Hin. unfold Api.OBJECT_PROTOTYPE_MEMBERS.
      rewrite !elem_of_cons, elem_of_nil. intuition discriminate. }
    assert (Hp : username <> "privateKey").
    { intros ->. revert Hin. unfold Api.OBJECT_PROTOTYPE_MEMBERS.
      rewrite !elem_of_cons, elem_of_nil. intuition discriminate. }
    destruct (Api.proto (Api.users db)) as [[a p]|].
    + rewrite bool_decide_eq_false_2 by exact Ha.
      rewrite bool_decide_eq_false_2 by exact Hp.
      rewrite Hinh. eexists. split; [reflexivity|]. discriminate.
    + rewrite Hinh. eexists. split; [reflexivity|]. discriminate.
Qed.

(** X27. Storing a record under the name [__proto__] in a store that has no
    own entry of that name adds no own entry at all: it replaces the store's
    prototype, after which the names [address] and [privateKey], if never
    stored, are answered with that record's fields. *)
Theorem upsertUser_proto_name (db : Api.database) (wallet : string * string) :
  Api.own (Api.users db) !! "__proto__" = None ->
  Api.own (Api.users (Api.upsertUser db "__proto__" wallet))
    = Api.own (Api.users db)
  /\ (Api.own (Api.users db) !! "address" = None ->
      wallet.1 <> "" ->
      Api.getUser (Api.upsertUser db "__proto__" wallet) "address"
      = Some (Api.Str wallet.1))
  /\ (Api.own (Api.users db) !! "privateKey" = None ->
      wallet.2 <> "" ->
      Api.getUser (Api.upsertUser db "__proto__" wallet) "privateKey"
      = Some (Api.Str wallet.2)).
Proof.
  intros Hown.
  unfold Api.getUser, Api.upsertUser, Api.set_property, Api.get_property.
  simpl. rewrite Hown. simpl. destruct wallet as [a p]. simpl.
  split; [reflexivity|]. split.
  - intros -> Ha. simpl. rewrite bool_decide_eq_false_2 by exact Ha.
    reflexivity.
  - intros -> Hp. simpl. rewrite bool_decide_eq_false_2 by exact Hp.
    reflexivity.
Qed.

(** * The further properties at concrete inputs *)

Lemma deployed_solvent (t : Z) : 0 <= t -> solvent (deployed t [] []).
Proof.
  intros Ht a. unfold balance_of, deployed, constructor. simpl.
  destruct (Z.eq_dec a TREASURY) as [->|Hne].
  - rewrite lookup_insert_eq. exact Ht.
  - rewrite lookup_insert_ne by congruence. rewrite lookup_empty. simpl. lia.
Qed.

(** X1 at the owner sweeping 40 of 100 to R1. *)
Lemma sweep_moves_exact_value_witness :
  sweep OWNER R1 40 (deployed 100 [] [])
    = Ok (deployed 60 [(R1, 40)] [], [Sent R1 40])
  /\ [Sent R1 40] = [Sent R1 40]
  /\ 40 <= balance_of (deployed 100 [] []) (this (deployed 100 [] []))
  /\ (forall a,
        balance_of (deployed 60 [(R1, 40)] []) a
        = balance_of (deployed 100 [] []) a + (if a =? R1 then 40 else 0)
          - (if a =? this (deployed 100 [] []) then 40 else 0))
  /\ deployed 60 [(R1, 40)] []
     = set_balances (balances (deployed 60 [(R1, 40)] []))
         (deployed 100 [] []).
Proof.
  assert (H : sweep OWNER R1 40 (deployed 100 [] [])
              = Ok (deployed 60 [(R1, 40)] [], [Sent R1 40]))
    by (vm_compute; reflexivity).
  split; [exact H|].
  exact (sweep_moves_exact_value (deployed 100 [] [])
           (deployed 60 [(R1, 40)] []) OWNER R1 40 [Sent R1 40] H).
Defined.

(** X2 at the owner sweeping to the refusing R2. *)
Lemma sweep_fails_exactly_when_witness :
  OWNER = owner (deployed 100 [] [R2])
  /\ entered (deployed 100 [] [R2]) = false
  /\ (sweep OWNER R2 10 (deployed 100 [] [R2]) = Revert SweepFailed
      <-> balance_of (deployed 100 [] [R2]) (this (deployed 100 [] [R2])) < 10
          \/ (R2 <> this (deployed 100 [] [R2])
              /\ R2 ∈ refusing (deployed 100 [] [R2])))
  /\ (sweep OWNER R2 10 (deployed 100 [] [R2]) = Revert SweepFailed ->
      transact (deployed 100 [] [R2])
        (sweep OWNER R2 10 (deployed 100 [] [R2]))
      = (deployed 100 [] [R2], Failure SweepFailed))
  /\ (sweep OWNER R2 10 (deployed 100 [] [R2]) <> Revert SweepFailed ->
      exists s', sweep OWNER R2 10 (deployed 100 [] [R2])
                 = Ok (s', [Sent R2 10])).
Proof.
  assert (Hc : OWNER = owner (deployed 100 [] [R2])) by reflexivity.
  assert (He : entered (deployed 100 [] [R2]) = false) by reflexivity.
  split; [exact Hc|]. split; [exact He|].
  exact (sweep_fails_exactly_when (deployed 100 [] [R2]) OWNER R2 10 Hc He).
Defined.

(** X3 at a top-up of R1 and at a sweep to R1. *)
Lemma total_supply_conserved_witness :
  distributeIfBelowFromTreasury OWNER [R1] 30 1 (deployed 100 [] [])
    = Ok (deployed 70 [(R1, 30)] [], [Sent R1 30])
  /\ total_supply (balances (deployed 70 [(R1, 30)] []))
     = total_supply (balances (deployed 100 [] []))
  /\ sweep OWNER R1 30 (deployed 100 [] [])
     = Ok (deployed 70 [(R1, 30)] [], [Sent R1 30])
  /\ total_supply (balances (deployed 70 [(R1, 30)] []))
     = total_supply (balances (deployed 100 [] [])).
Proof.
  assert (Hd : distributeIfBelowFromTreasury OWNER [R1] 30 1
                 (deployed 100 [] [])
               = Ok (deployed 70 [(R1, 30)] [], [Sent R1 30]))
    by (vm_compute; reflexivity).
  assert (Hs : sweep OWNER R1 30 (deployed 100 [] [])
               = Ok (deployed 70 [(R1, 30)] [], [Sent R1 30]))
    by (vm_compute; reflexivity).
  split; [exact Hd|]. split.
  - exact (proj1 (total_supply_conserved (deployed 100 [] [])
                    (deployed 70 [(R1, 30)] []) OWNER [Sent R1 30])
             [R1] 30 1 Hd).
  - split; [exact Hs|].
    exact (proj2 (total_supply_conserved (deployed 100 [] [])
                    (deployed 70 [(R1, 30)] []) OWNER [Sent R1 30])
             R1 30 Hs).
Defined.

(** X4 at the same two calls. *)
Lemma solvency_preserved_witness :
  solvent (deployed 100 [] [])
  /\ 0 <= 30
  /\ distributeIfBelowFromTreasury OWNER [R1] 30 1 (deployed 100 [] [])
     = Ok (deployed 70 [(R1, 30)] [], [Sent R1 30])
  /\ sweep OWNER R1 30 (deployed 100 [] [])
     = Ok (deployed 70 [(R1, 30)] [], [Sent R1 30])
  /\ solvent (deployed 70 [(R1, 30)] []).
Proof.
  assert (Hsol : solvent (deployed 100 [] []))
    by (apply deployed_solvent; lia).
  assert (Ha : 0 <= 30) by lia.
  assert (Hd : distributeIfBelowFromTreasury OWNER [R1] 30 1
                 (deployed 100 [] [])
               = Ok (deployed 70 [(R1, 30)] [], [Sent R1 30]))
    by (vm_compute; reflexivity).
  assert (Hs : sweep OWNER R1 30 (deployed 100 [] [])
               = Ok (deployed 70 [(R1, 30)] [], [Sent R1 30]))
    by (vm_compute; reflexivity).
  split; [exact Hsol|]. split; [exact Ha|]. split; [exact Hd|].
  split; [exact Hs|].
  exact (proj1 (solvency_preserved (deployed 100 [] [])
                  (deployed 70 [(R1, 30)] []) OWNER [Sent R1 30] Hsol)
           [R1] 30 1 Ha Hd).
Defined.

(** X5 at an empty treasury and a recipient exactly at the threshold. *)
Lemma distribute_nobody_below_witness :
  OWNER = owner (deployed 0 [(R1, 5)] [])
  /\ entered (deployed 0 [(R1, 5)] []) = false
  /\ 0 <= balance_of (deployed 0 [(R1, 5)] [])
            (this (deployed 0 [(R1, 5)] []))
  /\ under_count (deployed 0 [(R1, 5)] []) [R1] 5 = 0
  /\ distributeIfBelowFromTreasury OWNER [R1] 30 5
       (deployed 0 [(R1, 5)] [])
     = Ok (deployed 0 [(R1, 5)] [], []).
Proof.
  assert (Hc : OWNER = owner (deployed 0 [(R1, 5)] [])) by reflexivity.
  assert (He : entered (deployed 0 [(R1, 5)] []) = false) by reflexivity.
  assert (Hb : 0 <= balance_of (deployed 0 [(R1, 5)] [])
                      (this (deployed 0 [(R1, 5)] [])))
    by (vm_compute; discriminate).
  assert (Hu : under_count (deployed 0 [(R1, 5)] []) [R1] 5 = 0)
    by (vm_compute; reflexivity).
  split; [exact Hc|]. split; [exact He|]. split; [exact Hb|].
  split; [exact Hu|].
  exact (distribute_nobody_below (deployed 0 [(R1, 5)] []) OWNER [R1]
           30 5 Hc He Hb Hu).
Defined.

(** X6 at R1 listed twice: the treasury pays 30 where 60 was required. *)
Lemma distribute_spending_bounded_witness :
  0 <= 30
  /\ distributeIfBelowFromTreasury OWNER [R1; R1] 30 1 (deployed 100 [] [])
     = Ok (deployed 70 [(R1, 30)] [], [Sent R1 30])
  /\ balance_of (deployed 100 [] []) (this (deployed 100 [] []))
     - under_count (deployed 100 [] []) [R1; R1] 1 * 30
     <= balance_of (deployed 70 [(R1, 30)] []) (this (deployed 100 [] []))
  /\ balance_of (deployed 70 [(R1, 30)] []) (this (deployed 100 [] []))
     <= balance_of (deployed 100 [] []) (this (deployed 100 [] [])).
Proof.
  assert (Ha : 0 <= 30) by lia.
  assert (Hd : distributeIfBelowFromTreasury OWNER [R1; R1] 30 1
                 (deployed 100 [] [])
               = Ok (deployed 70 [(R1, 30)] [], [Sent R1 30]))
    by (vm_compute; reflexivity).
  split; [exact Ha|]. split; [exact Hd|].
  exact (distribute_spending_bounded (deployed 100 [] [])
           (deployed 70 [(R1, 30)] []) OWNER [R1; R1] 30 1 [Sent R1 30]
           Ha Hd).
Defined.

(** X7 at a batch of R1, the null address and R2. *)
Lemma distribute_pays_in_batch_order_witness :
  distributeIfBelowFromTreasury OWNER [R1; 0; R2] 30 1 (deployed 100 [] [])
    = Ok (deployed 40 [(R1, 30); (R2, 30)] [], [Sent R1 30; Sent R2 30])
  /\ paid [Sent R1 30; Sent R2 30] `sublist_of` [R1; 0; R2]
  /\ forall r, In r (paid [Sent R1 30; Sent R2 30]) ->
       r <> 0
       /\ (r <> this (deployed 100 [] []) ->
           balance_of (deployed 100 [] []) r < 1).
Proof.
  assert (Hd : distributeIfBelowFromTreasury OWNER [R1; 0; R2] 30 1
                 (deployed 100 [] [])
               = Ok (deployed 40 [(R1, 30); (R2, 30)] [],
                     [Sent R1 30; Sent R2 30]))
    by (vm_compute; reflexivity).
  split; [exact Hd|].
  exact (distribute_pays_in_batch_order (deployed 100 [] [])
           (deployed 40 [(R1, 30); (R2, 30)] []) OWNER [R1; 0; R2] 30 1
           [Sent R1 30; Sent R2 30] Hd).
Defined.

(** X8 at the owner granting and withdrawing R1's right. *)
Lemma minter_add_then_remove_witness :
  OWNER = owner (deployed 100 [] [])
  /\ exists s1 s2,
       addMinter OWNER R1 (deployed 100 [] []) = Ok (s1, [MinterAdded R1])
       /\ is_minter s1 R1 = true
       /\ (forall a, a <> R1 ->
             is_minter s1 a = is_minter (deployed 100 [] []) a)
       /\ removeMinter OWNER R1 s1 = Ok (s2, [MinterRemoved R1])
       /\ is_minter s2 R1 = false
       /\ (forall a, a <> R1 ->
             is_minter s2 a = is_minter (deployed 100 [] []) a)
       /\ balances s2 = balances (deployed 100 [] [])
       /\ owner s2 = owner (deployed 100 [] [])
       /\ removeMinter OWNER R1 s2 = Revert NotMinter.
Proof.
  assert (Hc : OWNER = owner (deployed 100 [] [])) by reflexivity.
  split; [exact Hc|].
  exact (minter_add_then_remove (deployed 100 [] []) OWNER R1 Hc).
Defined.

(** X10 at the owner minting ids 1, 2 and 1 again to R1, R2 and R1. *)
Lemma mintToMany_outcomes_witness :
  is_minter (deployed 100 [] []) OWNER = true
  /\ is_minter (deployed 100 [] []) R1 = false
  /\ length [R1; R2; R1] = length [1; 2; 1]
  /\ length [R1; R2] <> length [1]
  /\ Forall (fun a => a <> 0) [R1; R2; R1]
  /\ mintToMany R1 [R1; R2; R1] [1; 2; 1] (deployed 100 [] []) no_tokens
     = inl (Custom NotMinter)
  /\ mintToMany OWNER [R1; R2] [1] (deployed 100 [] []) no_tokens
     = inl (Custom LengthMismatch)
  /\ exists t',
       mintToMany OWNER [R1; R2; R1] [1; 2; 1] (deployed 100 [] [])
         no_tokens = inr t'
       /\ (forall id, In id [1; 2; 1] -> _exists t' id = true)
       /\ (forall id, _exists no_tokens id = true -> _exists t' id = true).
Proof.
  assert (Hm : is_minter (deployed 100 [] []) OWNER = true)
    by (vm_compute; reflexivity).
  assert (Hn : is_minter (deployed 100 [] []) R1 = false)
    by (vm_compute; reflexivity).
  assert (Hl : length [R1; R2; R1] = length [1; 2; 1]) by reflexivity.
  assert (Hd : length [R1; R2] <> length [1]) by (simpl; lia).
  assert (Hz : Forall (fun a => a <> 0) [R1; R2; R1])
    by (repeat constructor; vm_compute; discriminate).
  split; [exact Hm|]. split; [exact Hn|]. split; [exact Hl|].
  split; [exact Hd|]. split; [exact Hz|]. split; [|split].
  - exact (proj1 (@mintToMany_outcomes tokens _ reference_laws R1
                    [R1; R2; R1] [1; 2; 1] (deployed 100 [] []) no_tokens)
             Hn).
  - exact (proj1 (proj2 (@mintToMany_outcomes tokens _ reference_laws OWNER
                           [R1; R2] [1] (deployed 100 [] []) no_tokens))
             Hm Hd).
  - exact (proj2 (proj2 (@mintToMany_outcomes tokens _ reference_laws OWNER
                           [R1; R2; R1] [1; 2; 1] (deployed 100 [] [])
                           no_tokens))
             Hm Hl Hz).
Defined.

(** X11 at token 1, which R1 already holds. *)
Lemma minting_existing_ids_witness :
  is_minter (deployed 100 [] []) OWNER = true
  /\ length [R2; R2] = length [1; 1]
  /\ Forall (fun id => _exists one_token id = true) [1; 1]
  /\ mintToMany OWNER [R2; R2] [1; 1] (deployed 100 [] []) one_token
     = inr one_token
  /\ forall to id, In id [1; 1] ->
       mintUniqueTokenTo OWNER to id (deployed 100 [] []) one_token
       = inl Inherited.
Proof.
  assert (Hm : is_minter (deployed 100 [] []) OWNER = true)
    by (vm_compute; reflexivity).
  assert (Hl : length [R2; R2] = length [1; 1]) by reflexivity.
  assert (He : Forall (fun id => _exists one_token id = true) [1; 1])
    by (repeat constructor).
  split; [exact Hm|]. split; [exact Hl|]. split; [exact He|].
  exact (@minting_existing_ids tokens _ reference_laws OWNER [R2; R2] [1; 1]
           (deployed 100 [] []) one_token Hm Hl He).
Defined.

(** X12 at the owner minting token 1 to R1. *)
Lemma mint_then_checkIn_witness :
  mintUniqueTokenTo OWNER R1 1 (deployed 100 [] []) no_tokens = inr one_token
  /\ checkIn R1 1 one_token = inr (R1, 1)
  /\ forall other, other <> R1 ->
       checkIn other 1 one_token = inl (Custom NotOwner).
Proof.
  assert (Hm : mintUniqueTokenTo OWNER R1 1 (deployed 100 [] []) no_tokens
               = inr one_token)
    by (vm_compute; reflexivity).
  split; [exact Hm|].
  exact (@mint_then_checkIn tokens _ reference_laws OWNER R1 1
           (deployed 100 [] []) no_tokens one_token Hm).
Defined.

(** X13 at tokens 1 (minted) and 2 (not minted). *)
Lemma tokenURI_identifies_token_witness :
  _exists one_token 2 = false
  /\ _exists one_token 1 = true
  /\ tokenURI one_token 2 = inl (Custom NonexistentToken)
  /\ tokenURI one_token 1 = inr "https://api.kazar.space/new/1"
  /\ (0 <= 1 -> 0 <= 1 ->
      forall uri, tokenURI one_token 1 = inr uri ->
                  tokenURI one_token 1 = inr uri -> 1 = 1).
Proof.
  assert (H2 : _exists one_token 2 = false) by (vm_compute; reflexivity).
  assert (H1 : _exists one_token 1 = true) by (vm_compute; reflexivity).
  split; [exact H2|]. split; [exact H1|]. split; [|split].
  - exact (proj1 (@tokenURI_identifies_token tokens _ reference_laws
                    one_token 2 2) H2).
  - exact (proj1 (proj2 (@tokenURI_identifies_token tokens _ reference_laws
                           one_token 1 1)) H1).
  - exact (proj2 (proj2 (@tokenURI_identifies_token tokens _ reference_laws
                           one_token 1 1))).
Defined.

(** X14 at a call that throws twice before returning 7. *)
Lemma withRetry_first_success_witness :
  0 <= 300
  /\ 300 * 2 ^ Z.of_nat 5 <= 2 ^ 53
  /\ (2 < 5)%nat
  /\ (forall j, (j < 2)%nat -> exists e, flaky j = inl e)
  /\ flaky 2 = inr 7
  /\ Script.withRetry flaky 5 300 = (inr 7, Script.backoff 300 0 2)
  /\ Script.total_delay (Script.backoff 300 0 2)
     = 300 * (2 ^ Z.of_nat 2 - 1).
Proof.
  assert (Hb : 0 <= 300) by lia.
  assert (Hx : 300 * 2 ^ Z.of_nat 5 <= 2 ^ 53) by (vm_compute; discriminate).
  assert (Hk : (2 < 5)%nat) by lia.
  assert (Hf : forall j, (j < 2)%nat -> exists e, flaky j = inl e).
  { intros j Hj. exists "busy"%string.
    destruct j as [|[|j]]; [reflexivity|reflexivity|lia]. }
  assert (Ho : flaky 2 = inr 7) by reflexivity.
  split; [exact Hb|]. split; [exact Hx|].
  split; [exact Hk|]. split; [exact Hf|]. split; [exact Ho|].
  exact (withRetry_first_success flaky 5 300 2 7 Hb Hx Hk Hf Ho).
Defined.

(** X15 at a call that always throws, with the default five attempts. *)
Lemma withRetry_exhausted_witness :
  0 <= 300
  /\ 300 * 2 ^ Z.of_nat 5 <= 2 ^ 53
  /\ (forall j, (j < 5)%nat -> exists e, down j = inl e)
  /\ Script.withRetry down 5 300
     = (inl (Some "down"%string), [300; 600; 1200; 2400; 4800])
  /\ length (Script.backoff 300 0 5) = 5%nat
  /\ Script.total_delay (Script.backoff 300 0 5) = 9300.
Proof.
  assert (Hf : forall j, (j < 5)%nat -> exists e, down j = inl e).
  { intros j Hj. exists "down"%string. reflexivity. }
  assert (Hb : 0 <= 300) by lia.
  assert (Hx : 300 * 2 ^ Z.of_nat 5 <= 2 ^ 53) by (vm_compute; discriminate).
  split; [exact Hb|]. split; [exact Hx|]. split; [exact Hf|].
  exact (withRetry_exhausted down 5 300 Hb Hx Hf).
Defined.

(** X16 at a chain on which ids 1 and 2 are minted, scanning from 1. *)
Lemma script_findFreeTokenId_first_free_witness :
  Z.of_nat 2 < 1000
  /\ (forall j, (j < 2)%nat ->
        exists m a, (m < 5)%nat
                    /\ ownerOf_below_3 (1 + Z.of_nat j) m = inr a)
  /\ (forall m, (m < 5)%nat ->
        exists e, ownerOf_below_3 (1 + Z.of_nat 2) m = inl e)
  /\ exists d,
       Script.findFreeTokenId ownerOf_below_3 1 1000
         = (Some (1 + Z.of_nat 2), d)
       /\ 9300 <= Script.total_delay d.
Proof.
  assert (Hk : Z.of_nat 2 < 1000) by (simpl; lia).
  assert (Ht : forall j, (j < 2)%nat ->
             exists m a, (m < 5)%nat
                         /\ ownerOf_below_3 (1 + Z.of_nat j) m = inr a).
  { intros j Hj. exists 0%nat, OWNER. split; [lia|].
    destruct j as [|[|j]]; [reflexivity|reflexivity|lia]. }
  assert (Hf : forall m, (m < 5)%nat ->
             exists e, ownerOf_below_3 (1 + Z.of_nat 2) m = inl e).
  { intros m Hm. exists "revert"%string. reflexivity. }
  split; [exact Hk|]. split; [exact Ht|]. split; [exact Hf|].
  exact (script_findFreeTokenId_first_free ownerOf_below_3 1 1000 2
           Hk Ht Hf).
Defined.

(** X17 at ids 1 and 2 minted: the scan from 1 returns 3. *)
Lemma api_findFreeTokenId_least_witness :
  Api.findFreeTokenId minted_below_3 1 1000 = Some 3
  /\ 1 <= 3 < 1 + 1000
  /\ minted_below_3 3 = false
  /\ forall j, 1 <= j < 3 -> minted_below_3 j = true.
Proof.
  assert (H : Api.findFreeTokenId minted_below_3 1 1000 = Some 3)
    by (vm_compute; reflexivity).
  split; [exact H|].
  exact (proj1 (api_findFreeTokenId_least minted_below_3 1 1000 3) H).
Defined.

(** X18 at a scan limit of zero and at a range that is fully minted. *)
Lemma api_findFreeTokenId_gives_up_witness :
  0 <= 0
  /\ Api.findFreeTokenId minted_below_3 1 0 = None
  /\ Api.findFreeTokenId minted_below_3 1 2 = None
  /\ forall j, 1 <= j < 1 + 2 -> minted_below_3 j = true.
Proof.
  assert (Hl : 0 <= 0) by lia.
  assert (Hn : Api.findFreeTokenId minted_below_3 1 2 = None)
    by (vm_compute; reflexivity).
  split; [exact Hl|]. split; [|split; [exact Hn|]].
  - exact (proj2 (api_findFreeTokenId_gives_up minted_below_3 1 0) Hl).
  - exact (proj1 (proj1 (api_findFreeTokenId_gives_up minted_below_3 1 2))
             Hn).
Defined.

(** X19 at the owner's wallet and at a stranger's, for the account R1. *)
Lemma ensureMinter_grants_once_witness :
  R2 <> owner (deployed 100 [] [])
  /\ is_minter (deployed 100 [] []) R1 = false
  /\ is_minter (deployed 100 [] []) OWNER = true
  /\ Api.ensureMinter OWNER R1 (deployed 100 [] [])
     = Ok (set_minter (<[R1 := true]> (minter (deployed 100 [] [])))
             (deployed 100 [] []), [MinterAdded R1])
  /\ Api.ensureMinter R2 OWNER (deployed 100 [] [])
     = Ok (deployed 100 [] [], [])
  /\ is_minter (set_minter (<[R1 := true]> (minter (deployed 100 [] [])))
                  (deployed 100 [] [])) R1 = true
  /\ Api.ensureMinter OWNER R1
       (set_minter (<[R1 := true]> (minter (deployed 100 [] [])))
          (deployed 100 [] []))
     = Ok (set_minter (<[R1 := true]> (minter (deployed 100 [] [])))
             (deployed 100 [] []), [])
  /\ Api.ensureMinter R2 R1 (deployed 100 [] []) = Revert Unauthorized.
Proof.
  assert (Hs : R2 <> owner (deployed 100 [] [])) by (vm_compute; lia).
  assert (Hm : is_minter (deployed 100 [] []) R1 = false)
    by (vm_compute; reflexivity).
  assert (Ho : is_minter (deployed 100 [] []) OWNER = true)
    by (vm_compute; reflexivity).
  assert (Hrun : Api.ensureMinter OWNER R1 (deployed 100 [] [])
                 = Ok (set_minter
                         (<[R1 := true]> (minter (deployed 100 [] [])))
                         (deployed 100 [] []), [MinterAdded R1]))
    by reflexivity.
  destruct (proj1 (proj2 (ensureMinter_grants_once (deployed 100 [] [])
                            OWNER R1)) _ _ Hrun)
    as (Hnow & _ & _ & _ & Hagain).
  split; [exact Hs|]. split; [exact Hm|]. split; [exact Ho|].
  split; [exact Hrun|]. split; [|split; [exact Hnow|split; [exact Hagain|]]].
  - exact (proj1 (ensureMinter_grants_once (deployed 100 [] []) R2 OWNER) Ho).
  - exact (proj2 (proj2 (ensureMinter_grants_once (deployed 100 [] []) R2 R1))
             Hs Hm).
Defined.

(** X20 at an estimate of 100 gas at a fee of 2 with the default 200 bps:
    the total is 204, and the empty child ends with exactly 204. *)
Lemma autoTopUp_brings_balance_to_total_witness :
  R1 <> 0
  /\ R1 <> this (deployed 1000 [] [])
  /\ R1 <> OWNER
  /\ (R1 ∉ refusing (deployed 1000 [] []))
  /\ Api.autoTopUpFromTreasury OWNER R1 (Some 2) None (Some 100)
       Api.DEFAULT_TOPUP_BUFFER_BPS Api.DEFAULT_FALLBACK_GAS_LIMIT
       (deployed 1000 [] [])
     = (deployed 796 [(R1, 204)] [],
        inr (Api.mkReport true 204 204 (Some 204)))
  /\ balance_of (deployed 1000 [] []) R1 < 204
  /\ balance_of (deployed 796 [(R1, 204)] []) R1 = 204
  /\ balance_of (deployed 796 [(R1, 204)] []) (this (deployed 1000 [] []))
     = balance_of (deployed 1000 [] []) (this (deployed 1000 [] []))
       - (204 - balance_of (deployed 1000 [] []) R1).
Proof.
  assert (H0 : R1 <> 0) by (vm_compute; lia).
  assert (Ht : R1 <> this (deployed 1000 [] [])) by (vm_compute; lia).
  assert (Hs : R1 <> OWNER) by (vm_compute; lia).
  assert (Hr : R1 ∉ refusing (deployed 1000 [] []))
    by (vm_compute; discriminate).
  assert (Hrun : Api.autoTopUpFromTreasury OWNER R1 (Some 2) None (Some 100)
                   Api.DEFAULT_TOPUP_BUFFER_BPS
                   Api.DEFAULT_FALLBACK_GAS_LIMIT (deployed 1000 [] [])
                 = (deployed 796 [(R1, 204)] [],
                    inr (Api.mkReport true 204 204 (Some 204))))
    by (vm_compute; reflexivity).
  assert (Hf : Api.funded (Api.mkReport true 204 204 (Some 204)) = true)
    by reflexivity.
  destruct (autoTopUp_brings_balance_to_total (deployed 1000 [] [])
              (deployed 796 [(R1, 204)] []) OWNER R1
              Api.DEFAULT_TOPUP_BUFFER_BPS Api.DEFAULT_FALLBACK_GAS_LIMIT
              (Some 2) None (Some 100)
              (Api.mkReport true 204 204 (Some 204)) H0 Ht Hs Hr Hrun Hf)
    as (Hlow & _ & Hchild & Htreasury).
  split; [exact H0|]. split; [exact Ht|]. split; [exact Hs|].
  split; [exact Hr|]. split; [exact Hrun|]. split; [exact Hlow|].
  split; [exact Hchild|exact Htreasury].
Defined.

(** X21 at a child that already holds 500 where 204 is needed, and at an
    empty child. *)
Lemma autoTopUp_effect_only_when_funded_witness :
  Api.autoTopUpFromTreasury OWNER R1 (Some 2) None (Some 100)
    Api.DEFAULT_TOPUP_BUFFER_BPS Api.DEFAULT_FALLBACK_GAS_LIMIT
    (deployed 1000 [(R1, 500)] [])
  = (deployed 1000 [(R1, 500)] [], inr (Api.mkReport false 0 204 None))
  /\ 204 <= balance_of (deployed 1000 [(R1, 500)] []) R1
  /\ Api.autoTopUpFromTreasury OWNER R1 (Some 2) None (Some 100)
       Api.DEFAULT_TOPUP_BUFFER_BPS Api.DEFAULT_FALLBACK_GAS_LIMIT
       (deployed 1000 [] [])
     = (deployed 796 [(R1, 204)] [],
        inr (Api.mkReport true 204 204 (Some 204)))
  /\ ~ 204 <= balance_of (deployed 1000 [] []) R1.
Proof.
  assert (H1 : Api.autoTopUpFromTreasury OWNER R1 (Some 2) None (Some 100)
                 Api.DEFAULT_TOPUP_BUFFER_BPS Api.DEFAULT_FALLBACK_GAS_LIMIT
                 (deployed 1000 [(R1, 500)] [])
               = (deployed 1000 [(R1, 500)] [],
                  inr (Api.mkReport false 0 204 None)))
    by (vm_compute; reflexivity).
  assert (H2 : Api.autoTopUpFromTreasury OWNER R1 (Some 2) None (Some 100)
                 Api.DEFAULT_TOPUP_BUFFER_BPS Api.DEFAULT_FALLBACK_GAS_LIMIT
                 (deployed 1000 [] [])
               = (deployed 796 [(R1, 204)] [],
                  inr (Api.mkReport true 204 204 (Some 204))))
    by (vm_compute; reflexivity).
  destruct (autoTopUp_effect_only_when_funded _ _ _ _ _ _ _ _ _ _ H1)
    as [Hiff1 _].
  destruct (autoTopUp_effect_only_when_funded _ _ _ _ _ _ _ _ _ _ H2)
    as [Hiff2 _].
  split; [exact H1|]. split; [exact (proj1 Hiff1 eq_refl)|].
  split; [exact H2|].
  intros Hle. exact (eq_ind true (fun b => if b then True else False) I false
                       (proj2 Hiff2 Hle)).
Defined.



(** X25 at two ordinary names. *)
Lemma upsertUser_other_names_witness :
  "carol"%string <> "bob"%string
  /\ Api.getUser (Api.upsertUser fresh_db "bob" alice) "carol"
     = Api.getUser fresh_db "carol".
Proof.
  assert (Hne : "carol"%string <> "bob"%string) by discriminate.
  assert (Hsafe : "bob"%string <> "__proto__"%string
                  \/ is_Some (Api.own (Api.users fresh_db) !! "__proto__"))
    by (left; discriminate).
  split; [exact Hne|].
  exact (upsertUser_other_names fresh_db "bob" "carol" alice Hne Hsafe).
Defined.

(** X26 at the name toString on a store that holds nobody. *)
Lemma getUser_inherited_names_witness :
  Api.own (Api.users fresh_db) !! "toString" = None
  /\ exists v, Api.getUser fresh_db "toString" = Some v
               /\ (Api.proto (Api.users fresh_db) = None ->
                   forall a p, v <> Api.Wallet a p).
Proof.
  assert (Hown : Api.own (Api.users fresh_db) !! "toString" = None)
    by reflexivity.
  assert (Hname : "toString"%string ∈ Api.OBJECT_PROTOTYPE_MEMBERS
                  \/ "toString"%string = "__proto__"%string).
  { left. unfold Api.OBJECT_PROTOTYPE_MEMBERS.
    rewrite !elem_of_cons. tauto. }
  split; [exact Hown|].
  exact (getUser_inherited_names fresh_db "toString" Hown Hname).
Defined.

(** X27 at a record stored under __proto__ in a store that holds nobody. *)
Lemma upsertUser_proto_name_witness :
  Api.own (Api.users fresh_db) !! "__proto__" = None
  /\ Api.own (Api.users (Api.upsertUser fresh_db "__proto__" alice))
     = Api.own (Api.users fresh_db)
  /\ Api.getUser (Api.upsertUser fresh_db "__proto__" alice) "address"
     = Some (Api.Str "0xA11CE")
  /\ Api.getUser (Api.upsertUser fresh_db "__proto__" alice) "privateKey"
     = Some (Api.Str "0xKEY").
Proof.
  assert (Hown : Api.own (Api.users fresh_db) !! "__proto__" = None)
    by reflexivity.
  assert (Ha : Api.own (Api.users fresh_db) !! "address" = None)
    by reflexivity.
  assert (Hp : Api.own (Api.users fresh_db) !! "privateKey" = None)
    by reflexivity.
  assert (Hna : alice.1 <> ""%string) by discriminate.
  assert (Hnp : alice.2 <> ""%string) by discriminate.
  split; [exact Hown|].
  destruct (upsertUser_proto_name fresh_db alice Hown) as (H1 & H2 & H3).
  split; [exact H1|]. split; [exact (H2 Ha Hna)|exact (H3 Hp Hnp)].
Defined.
